(** * A shallow embedding of the CLI command engine

    The development follows the TypeScript sources file by file:
    [domain/types.ts], [infrastructure/commandRegistry.ts],
    [infrastructure/errorHandler.ts], [infrastructure/eventEmitter.ts],
    [infrastructure/validators.ts], [application/cliEngine.ts],
    [application/pluginManager.ts] and [adapters/agentInterface.ts].

    Conventions of the embedding.
    - JavaScript strings are [string]s, in UTF-8.  The case mappings
      are those of the ASCII letters, and of sharp s, whose upper case is
      [SS]; the other characters outside ASCII are left alone, and what
      is stated of the upper case of a name is stated of ASCII names.
      The white-space class is the ASCII one.
    - A JavaScript [Map], [Set] or plain object is an insertion-ordered
      association list, because the code iterates over them
      ([Array.from(values())], [forEach], [Object.values]).
    - Code that may have effects or throw runs in the monad [M]: a state
      monad over [World] whose results are [Completion]s.  An [async]
      function that is awaited is the same monad: a rejected promise is a
      [Throw] at the [await].
    - Code supplied from outside acts on an abstract environment [Env]: a
      command or a listener on the environment alone, a plugin on the
      environment and on the registry it registers its commands into.
      It throws [Error]s or primitive values.
    - The dispatcher and the plugin manager are given an emitter whose
      listeners do not call it back: [CLIEventEmitter] walks the
      callbacks of the event as they are when the emission starts.
      [LiveEmitter] is the emitter for callbacks that call [on], [off]
      and [emit] while an emission is under way; the two agree on the
      callbacks that do not.
    - The calls made into that code and the events emitted are kept in a
      trace, [w_trace], which is ghost state. *)

From Stdlib Require Import String Ascii List ZArith Bool Lia DecimalString.
Import ListNotations.

Local Open Scope string_scope.
Local Open Scope list_scope.

(** ** JavaScript strings *)

Module JSString.

Definition nl : string := String (ascii_of_nat 10) "".

Definition is_upper (c : ascii) : bool :=
  let n := N_of_ascii c in (65 <=? n)%N && (n <=? 90)%N.

Definition is_lower (c : ascii) : bool :=
  let n := N_of_ascii c in (97 <=? n)%N && (n <=? 122)%N.

Definition lower_char (c : ascii) : ascii :=
  if is_upper c then ascii_of_N (N_of_ascii c + 32) else c.

Definition upper_char (c : ascii) : ascii :=
  if is_lower c then ascii_of_N (N_of_ascii c - 32) else c.

Fixpoint map_chars (f : ascii -> ascii) (s : string) : string :=
  match s with
  | EmptyString => EmptyString
  | String c s' => String (f c) (map_chars f s')
  end.

(** [s.toLowerCase()] *)
Definition toLowerCase : string -> string := map_chars lower_char.

(** The two bytes of the letter sharp s (U+00DF) in UTF-8. *)
Definition sharp_s_lead : ascii := ascii_of_N 195.
Definition sharp_s_trail : ascii := ascii_of_N 159.

(** [s.toUpperCase()]: the upper case of an ASCII letter is a letter;
    the upper case of sharp s is the two letters [SS]. *)
Fixpoint toUpperCase (s : string) : string :=
  match s with
  | EmptyString => EmptyString
  | String c s' =>
      match s' with
      | EmptyString => String (upper_char c) EmptyString
      | String d s'' =>
          if Ascii.eqb c sharp_s_lead && Ascii.eqb d sharp_s_trail
          then String "S" (String "S" (toUpperCase s''))
          else String (upper_char c) (toUpperCase s')
      end
  end.

(** A string of ASCII characters only. *)
Fixpoint is_ascii (s : string) : bool :=
  match s with
  | EmptyString => true
  | String c s' => (N_of_ascii c <? 128)%N && is_ascii s'
  end.

(** [s.startsWith(p)] *)
Fixpoint startsWith (p s : string) : bool :=
  match p, s with
  | EmptyString, _ => true
  | String _ _, EmptyString => false
  | String a p', String b s' => Ascii.eqb a b && startsWith p' s'
  end.

(** [s.includes(p)] *)
Fixpoint includes (p s : string) : bool :=
  startsWith p s ||
  match s with
  | EmptyString => false
  | String _ s' => includes p s'
  end.

(** [s.endsWith(p)] *)
Fixpoint endsWith (p s : string) : bool :=
  String.eqb p s ||
  match s with
  | EmptyString => false
  | String _ s' => endsWith p s'
  end.

(** [s.includes(c)] for a single character [c]. *)
Fixpoint has_char (c : ascii) (s : string) : bool :=
  match s with
  | EmptyString => false
  | String x s' => Ascii.eqb x c || has_char c s'
  end.

(** [s.substring(n)] *)
Fixpoint substring_from (n : nat) (s : string) : string :=
  match n, s with
  | O, _ => s
  | S _, EmptyString => EmptyString
  | S n', String _ s' => substring_from n' s'
  end.

(** [s.split(sep)] for a separator of one character: the result is
    never empty, and an occurrence of [sep] at either end gives an empty
    segment there. *)
Fixpoint split (sep : ascii) (s : string) : list string :=
  match s with
  | EmptyString => [EmptyString]
  | String c s' =>
      if Ascii.eqb c sep then EmptyString :: split sep s'
      else match split sep s' with
           | seg :: rest => String c seg :: rest
           | [] => [String c EmptyString]
           end
  end.

(** [s.split('')]: one string per character. *)
Fixpoint chars (s : string) : list string :=
  match s with
  | EmptyString => []
  | String c s' => String c EmptyString :: chars s'
  end.

(** [parts.join(sep)] *)
Fixpoint join (sep : string) (parts : list string) : string :=
  match parts with
  | [] => EmptyString
  | [p] => p
  | p :: rest => p ++ sep ++ join sep rest
  end.

(** The ASCII members of the regular-expression class [\s]. *)
Definition is_space (c : ascii) : bool :=
  let n := N_of_ascii c in ((9 <=? n)%N && (n <=? 13)%N) || (n =? 32)%N.

(** [s.split(/\s+/)]: [in_ws] tells that the previous character was
    white space, so that a run of white space separates once. *)
Fixpoint split_ws_from (in_ws : bool) (s : string) : list string :=
  match s with
  | EmptyString => [EmptyString]
  | String c s' =>
      if is_space c then
        if in_ws then split_ws_from true s'
        else EmptyString :: split_ws_from true s'
      else match split_ws_from false s' with
           | seg :: rest => String c seg :: rest
           | [] => [String c EmptyString]
           end
  end.

Definition split_ws : string -> list string := split_ws_from false.

(** [s.replace(/[<>]/g, '')] *)
Fixpoint strip_angles (s : string) : string :=
  match s with
  | EmptyString => EmptyString
  | String c s' =>
      if Ascii.eqb c "<" || Ascii.eqb c ">" then strip_angles s'
      else String c (strip_angles s')
  end.

(** A string is falsy exactly when it is empty. *)
Definition truthy (s : string) : bool :=
  match s with EmptyString => false | String _ _ => true end.

(** The text of an integral number in a template literal. *)
Definition of_Z (z : Z) : string := NilZero.string_of_int (Z.to_int z).

End JSString.

(** ** Insertion-ordered maps with string keys ([Map<string, V>]) *)

Module JSMap.
Section Defs.
Context {V : Type}.

Definition t := list (string * V).

Definition empty : t := [].

Fixpoint get (k : string) (m : t) : option V :=
  match m with
  | [] => None
  | (k', v) :: m' => if String.eqb k k' then Some v else get k m'
  end.

Definition has (k : string) (m : t) : bool :=
  match get k m with Some _ => true | None => false end.

(** [m.set(k, v)]: an existing key keeps its place, a new key goes
    to the end. *)
Fixpoint set (k : string) (v : V) (m : t) : t :=
  match m with
  | [] => [(k, v)]
  | (k', v') :: m' =>
      if String.eqb k k' then (k, v) :: m' else (k', v') :: set k v m'
  end.

Definition delete (k : string) (m : t) : t :=
  filter (fun kv => negb (String.eqb k (fst kv))) m.

Definition keys (m : t) : list string := map fst m.
Definition values (m : t) : list V := map snd m.
End Defs.
Arguments t : clear implicits.
End JSMap.

(** ** JavaScript values ([any]) *)

#[local] Set Warnings "-register-all".

Inductive JSValue : Type :=
| JSUndefined
| JSNull
| JSBool (b : bool)
| JSNumber (n : Z)
| JSString (s : string)
| JSArray (items : list JSValue)
| JSObject (fields : list (string * JSValue)).

(** Truthiness, as tested by [if (v)] and [filter((v) => v)]. *)
Definition truthy (v : JSValue) : bool :=
  match v with
  | JSUndefined | JSNull => false
  | JSBool b => b
  | JSNumber n => negb (n =? 0)%Z
  | JSString s => JSString.truthy s
  | JSArray _ | JSObject _ => true
  end.

(** An optional string property is truthy when present and not empty. *)
Definition truthy_opt (o : option string) : bool :=
  match o with Some s => JSString.truthy s | None => false end.

(** An [Error] object. *)
Record JSError := { err_name : string; err_message : string }.

(** What a [throw] carries: an [Error] object, or a value that is not an
    object ([throw undefined], [throw "text"]).  Thrown objects that are
    not [Error]s are left out. *)
Inductive Primitive : Type :=
| PUndefined
| PNull
| PBool (b : bool)
| PNumber (n : Z)
| PString (s : string).

Inductive Thrown : Type :=
| ErrorObject (e : JSError)
| ThrownValue (p : Primitive).

Coercion ErrorObject : JSError >-> Thrown.

(** [String(p)] *)
Definition String_of (p : Primitive) : string :=
  match p with
  | PUndefined => "undefined"
  | PNull => "null"
  | PBool true => "true"
  | PBool false => "false"
  | PNumber n => JSString.of_Z n
  | PString s => s
  end.

(** How a piece of code ends: with a value, or by throwing. *)
Inductive Completion (A : Type) : Type :=
| Normal (a : A)
| Throw (e : Thrown).
Arguments Normal {A} a.
Arguments Throw {A} e.

(** ** domain/types.ts *)

Inductive OutputFormat := text | json.

Record CLIContext := {
  arguments : list string;
  options : JSMap.t JSValue;
  outputFormat : OutputFormat;
  verbose : bool
}.

(** Dates are milliseconds since the epoch. *)
Record CommandResult := {
  success : bool;
  data : JSValue;
  error : option string;
  message : option string;
  timestamp : Z;
  executionTimeMs : Z
}.

Record ValidationOutcome := { valid : bool; errors : list string }.

Section Domain.
Context {Env : Type}.

Record Command := {
  cmd_name : string;
  cmd_description : string;
  cmd_usage : string;
  cmd_validate : CLIContext -> Env -> Completion ValidationOutcome * Env;
  cmd_execute : CLIContext -> Env -> Completion CommandResult * Env
}.

(** The default [validate] of the abstract class. *)
Definition default_validate (_ : CLIContext) (env : Env)
  : Completion ValidationOutcome * Env :=
  (Normal {| valid := true; errors := [] |}, env).
End Domain.
Arguments Command : clear implicits.

(** ** infrastructure/commandRegistry.ts *)

Module CommandRecordRegistry.
Section Defs.
Context {Env : Type}.

Definition t := JSMap.t (Command Env).

Definition empty : t := JSMap.empty.

Definition register (command : Command Env) (commands : t) : t :=
  JSMap.set (JSString.toLowerCase (cmd_name command)) command commands.

Definition unregister (commandName : string) (commands : t) : t :=
  JSMap.delete (JSString.toLowerCase commandName) commands.

Definition get (commandName : string) (commands : t) : option (Command Env) :=
  JSMap.get (JSString.toLowerCase commandName) commands.

Definition getAll (commands : t) : list (Command Env) :=
  JSMap.values commands.

Definition exists_ (commandName : string) (commands : t) : bool :=
  JSMap.has (JSString.toLowerCase commandName) commands.

(** The invariant of the registry: keys are distinct (it is a [Map])
    and each command sits under its lower-cased name. *)
Definition wf (commands : t) : Prop :=
  NoDup (JSMap.keys commands) /\
  Forall (fun kv => fst kv = JSString.toLowerCase (cmd_name (snd kv))) commands.
End Defs.
Arguments t : clear implicits.
End CommandRecordRegistry.

(** ** infrastructure/validators.ts: the input parser *)

Module CLIInputValidator.

Definition set_option (key : string) (value : JSValue) (context : CLIContext)
  : CLIContext :=
  {| arguments := arguments context;
     options := JSMap.set key value (options context);
     outputFormat := outputFormat context;
     verbose := verbose context |}.

Definition set_outputFormat (f : OutputFormat) (context : CLIContext)
  : CLIContext :=
  {| arguments := arguments context;
     options := options context;
     outputFormat := f;
     verbose := verbose context |}.

Definition set_verbose (context : CLIContext) : CLIContext :=
  {| arguments := arguments context;
     options := options context;
     outputFormat := outputFormat context;
     verbose := true |}.

Definition push_argument (arg : string) (context : CLIContext) : CLIContext :=
  {| arguments := arguments context ++ [arg];
     options := options context;
     outputFormat := outputFormat context;
     verbose := verbose context |}.

(** [parts[0]] of a split, which is never empty. *)
Definition long_key (parts : list string) : string :=
  match parts with k :: _ => k | [] => EmptyString end.

(** [parts.length > 1 ? parts[1] : true] *)
Definition long_value (parts : list string) : JSValue :=
  match parts with
  | _ :: v :: _ => JSString v
  | _ => JSBool true
  end.

(** The branch for a token that starts with two dashes. *)
Definition long_option (arg : string) (context : CLIContext) : CLIContext :=
  let parts := JSString.split "=" (JSString.substring_from 2 arg) in
  let key := long_key parts in
  let value := long_value parts in
  if String.eqb key "output" || String.eqb key "format" then
    set_outputFormat
      (match value with
       | JSString v => if String.eqb v "json" then json else text
       | _ => text
       end) context
  else if String.eqb key "verbose" then set_verbose context
  else set_option key value context.

(** The body of [flags.forEach]. *)
Definition short_flag (context : CLIContext) (flag : string) : CLIContext :=
  let context :=
    if String.eqb flag "j" then set_outputFormat json context else context in
  let context :=
    if String.eqb flag "v" then set_verbose context else context in
  set_option flag (JSBool true) context.

Definition short_options (arg : string) (context : CLIContext) : CLIContext :=
  fold_left short_flag (JSString.chars (JSString.substring_from 1 arg)) context.

(** One turn of the loop over [args]. *)
Definition parse_token (context : CLIContext) (arg : string) : CLIContext :=
  if JSString.startsWith "--" arg then long_option arg context
  else if JSString.startsWith "-" arg then short_options arg context
  else push_argument arg context.

Definition initial_context : CLIContext :=
  {| arguments := []; options := JSMap.empty;
     outputFormat := text; verbose := false |}.

Definition parseArguments (args : list string) : CLIContext :=
  fold_left parse_token args initial_context.

End CLIInputValidator.

(** ** infrastructure/validators.ts: the output formatter *)

Module CLIOutputFormatter.
Local Open Scope string_scope.

Section Defs.
(** [JSON.stringify(v, null, 2)] and [Date.prototype.toISOString] are
    built-ins of the platform. *)
Variable JSON_stringify : JSValue -> string.
Variable toISOString : Z -> string.

Definition opt_string (o : option string) : JSValue :=
  match o with Some s => JSString s | None => JSUndefined end.

Definition json_object (result : CommandResult) : JSValue :=
  JSObject
    [ ("success", JSBool (success result));
      ("data", data result);
      ("error", opt_string (error result));
      ("message", opt_string (message result));
      ("timestamp", JSString (toISOString (timestamp result)));
      ("executionTimeMs", JSNumber (executionTimeMs result)) ].

Definition text_of (o : option string) : string :=
  match o with Some s => s | None => EmptyString end.

Definition format_success (result : CommandResult) : string :=
  let output := "✅ Success" in
  let output :=
    if truthy_opt (message result)
    then output ++ ": " ++ text_of (message result) else output in
  let output :=
    if truthy (data result) then
      let output := output ++ JSString.nl ++ JSString.nl ++ "Data:" ++ JSString.nl in
      match data result with
      | JSString s => output ++ s
      | d => output ++ JSON_stringify d
      end
    else output in
  output ++ JSString.nl ++ JSString.nl ++ "Execution time: "
         ++ JSString.of_Z (executionTimeMs result) ++ "ms".

Definition format_failure (result : CommandResult) : string :=
  let output := "❌ Error" in
  let output :=
    if truthy_opt (error result)
    then output ++ ": " ++ text_of (error result) else output in
  let output :=
    if truthy_opt (message result)
    then output ++ JSString.nl ++ "Message: " ++ text_of (message result)
    else output in
  output.

Definition format (result : CommandResult) (fmt : OutputFormat) : string :=
  match fmt with
  | json => JSON_stringify (json_object result)
  | text =>
      if success result then format_success result
      else format_failure result
  end.
End Defs.
End CLIOutputFormatter.

(** ** Effects

    [M S A] is a computation over a state [S] that ends with an [A] or
    throws.  [try_catch] is the [try { ... } catch (error) { ... }]
    statement: the state reached when the body threw is kept. *)

Module Eff.
Definition M (S A : Type) : Type := S -> Completion A * S.

Definition ret {S A} (a : A) : M S A := fun s => (Normal a, s).

Definition bind {S A B} (m : M S A) (k : A -> M S B) : M S B :=
  fun s =>
    match m s with
    | (Normal a, s') => k a s'
    | (Throw e, s') => (Throw e, s')
    end.

Definition throw {S A} (e : Thrown) : M S A := fun s => (Throw e, s).

Definition try_catch {S A} (body : M S A) (handler : Thrown -> M S A) : M S A :=
  fun s =>
    match body s with
    | (Normal a, s') => (Normal a, s')
    | (Throw e, s') => handler e s'
    end.

Definition modify {S} (f : S -> S) : M S unit := fun s => (Normal tt, f s).

(** Run a computation on a component of the state. *)
Definition zoom {S T A} (proj : S -> T) (upd : T -> S -> S) (m : M T A) : M S A :=
  fun s => let (r, t') := m (proj s) in (r, upd t' s).

(** [items.forEach(f)] *)
Fixpoint forEach {S A} (f : A -> M S unit) (items : list A) : M S unit :=
  match items with
  | [] => ret tt
  | x :: rest => bind (f x) (fun _ => forEach f rest)
  end.
End Eff.

Declare Scope eff_scope.
Delimit Scope eff_scope with eff.
Notation "x <- m ;; k" := (Eff.bind m (fun x => k))
  (at level 61, m at next level, right associativity) : eff_scope.
Notation "m ;; k" := (Eff.bind m (fun _ => k))
  (at level 61, right associativity) : eff_scope.

(** ** The world the engine runs in *)

Inductive LogLevel := INFO | WARN | ERROR | DEBUG.

(** The payloads the engine and the plugin manager emit, and any other. *)
Inductive EventData : Type :=
| CommandExecuted (commandName : string) (result : CommandResult)
| CommandFailed (commandName : option string) (error : Thrown)
| PluginEvent (pluginName : string)
| Payload (data : JSValue).

(** Calls into code the engine does not own, and emissions.  The trace of
    these is ghost state: nothing in the engine reads it. *)
Inductive Call : Type :=
| CallValidate (commandName : string)
| CallExecute (commandName : string)
| CallListener (ref : nat)
| CallInitialize
| CallShutdown
| Emit (event : string) (data : EventData).

(** The number of calls to the listener [ref] in a trace. *)
Definition is_listener_call (ref : nat) (c : Call) : bool :=
  match c with CallListener r => Nat.eqb r ref | _ => false end.

Definition invocations (ref : nat) (calls : list Call) : nat :=
  length (filter (is_listener_call ref) calls).

Section World.
Context {Env : Type}.

(** [w_clock] is the sequence of instants that successive readings of
    the clock ([Date.now()], [new Date()]) return; [w_ticks] counts the
    readings taken.  [w_log] keeps the calls made to the [Logger] and
    [w_console] those made to [console.error]. *)
Record World := {
  w_env : Env;
  w_clock : nat -> Z;
  w_ticks : nat;
  w_log : list (LogLevel * string);
  w_console : list (string * Thrown);
  w_trace : list Call
}.

Definition set_env (env : Env) (w : World) : World :=
  {| w_env := env; w_clock := w_clock w; w_ticks := w_ticks w;
     w_log := w_log w; w_console := w_console w; w_trace := w_trace w |}.

Definition Date_now : Eff.M World Z :=
  fun w =>
    (Normal (w_clock w (w_ticks w)),
     {| w_env := w_env w; w_clock := w_clock w; w_ticks := S (w_ticks w);
        w_log := w_log w; w_console := w_console w; w_trace := w_trace w |}).

Definition new_Date : Eff.M World Z := Date_now.

Definition logger (level : LogLevel) (msg : string) : Eff.M World unit :=
  Eff.modify (fun w =>
    {| w_env := w_env w; w_clock := w_clock w; w_ticks := w_ticks w;
       w_log := w_log w ++ [(level, msg)];
       w_console := w_console w; w_trace := w_trace w |}).

Definition console_error (msg : string) (e : Thrown) : Eff.M World unit :=
  Eff.modify (fun w =>
    {| w_env := w_env w; w_clock := w_clock w; w_ticks := w_ticks w;
       w_log := w_log w;
       w_console := w_console w ++ [(msg, e)]; w_trace := w_trace w |}).

Definition record (c : Call) : Eff.M World unit :=
  Eff.modify (fun w =>
    {| w_env := w_env w; w_clock := w_clock w; w_ticks := w_ticks w;
       w_log := w_log w; w_console := w_console w;
       w_trace := w_trace w ++ [c] |}).

(** Run outside code on the environment. *)
Definition run_env {A} (f : Env -> Completion A * Env) : Eff.M World A :=
  Eff.zoom w_env set_env f.
End World.
Arguments World : clear implicits.

(** ** infrastructure/errorHandler.ts *)

Definition CommandNotFoundError (commandName : string) : JSError :=
  {| err_name := "CommandNotFoundError";
     err_message := "Command not found: '" ++ commandName ++ "'" |}.

(** Reading a property of [undefined] or [null] throws a [TypeError];
    the text of its message is the engine's. *)
Definition TypeError_reading (p : Primitive) (property : string) : JSError :=
  {| err_name := "TypeError";
     err_message := "Cannot read properties of " ++ String_of p
                    ++ " (reading '" ++ property ++ "')" |}.

Module CLIErrorHandler.
Section Defs.
Context {Env : Type}.
Local Open Scope eff_scope.

(** [error.message], for whatever was thrown: the message of an [Error],
    nothing for a number, a boolean or a string, and a [TypeError] for
    [undefined] and [null]. *)
Definition message_of (error : Thrown) : Completion (option string) :=
  match error with
  | ErrorObject e => Normal (Some (err_message e))
  | ThrownValue PUndefined => Throw (TypeError_reading PUndefined "message")
  | ThrownValue PNull => Throw (TypeError_reading PNull "message")
  | ThrownValue _ => Normal None
  end.

Definition handle (error : Thrown) (context : option CLIContext)
  : Eff.M (World Env) CommandResult :=
  message <- (fun w => (message_of error, w)) ;;
  timestamp <- new_Date ;;
  Eff.ret {| success := false;
             data := JSUndefined;
             error := message;
             message := None;
             timestamp := timestamp;
             executionTimeMs := 0 |}.
End Defs.
End CLIErrorHandler.

(** ** infrastructure/eventEmitter.ts *)

Section Listener.
Context {Env : Type}.

(** A callback is a function object: [listener_ref] is its identity,
    which is what a [Set] compares, and [listener_call] its code. *)
Record Listener := {
  listener_ref : nat;
  listener_call : EventData -> Env -> Completion unit * Env
}.
End Listener.
Arguments Listener : clear implicits.

(** [Set<callback>], in insertion order. *)
Module JSSet.
Section Defs.
Context {Env : Type}.

Definition t := list (Listener Env).

(** [new Set()] *)
Definition empty : t := [].

Definition same (a b : Listener Env) : bool :=
  Nat.eqb (listener_ref a) (listener_ref b).

Definition has (cb : Listener Env) (s : t) : bool := existsb (same cb) s.

Definition add (cb : Listener Env) (s : t) : t :=
  if has cb s then s else s ++ [cb].

Definition delete (cb : Listener Env) (s : t) : t :=
  filter (fun x => negb (same cb x)) s.
End Defs.
Arguments t : clear implicits.
End JSSet.

Module CLIEventEmitter.
Section Defs.
Context {Env : Type}.
Local Open Scope eff_scope.

Definition t := JSMap.t (JSSet.t Env).

Definition empty : t := JSMap.empty.

(** One turn of [callbacks.forEach]: the call and its [try]/[catch]. *)
Definition deliver (event : string) (data : EventData) (callback : Listener Env)
  : Eff.M (World Env) unit :=
  Eff.try_catch
    (record (CallListener (listener_ref callback)) ;;
     run_env (listener_call callback data))
    (fun error =>
       console_error ("Error in event listener for '" ++ event ++ "':") error).

Definition emit (listeners : t) (event : string) (data : EventData)
  : Eff.M (World Env) unit :=
  record (Emit event data) ;;
  if negb (JSMap.has event listeners) then Eff.ret tt
  else match JSMap.get event listeners with
       | Some callbacks => Eff.forEach (deliver event data) callbacks
       | None => Eff.ret tt
       end.

Definition on (event : string) (callback : Listener Env) (listeners : t) : t :=
  let listeners :=
    if negb (JSMap.has event listeners)
    then JSMap.set event JSSet.empty listeners else listeners in
  match JSMap.get event listeners with
  | Some callbacks => JSMap.set event (JSSet.add callback callbacks) listeners
  | None => listeners
  end.

Definition off (event : string) (callback : Listener Env) (listeners : t) : t :=
  if negb (JSMap.has event listeners) then listeners
  else match JSMap.get event listeners with
       | Some callbacks =>
           JSMap.set event (JSSet.delete callback callbacks) listeners
       | None => listeners
       end.

(** Views used to state properties: the callbacks registered for an
    event, in registration order; the calls that delivering to them
    leaves in the trace; the environment they leave; and the
    invariant of a [Set], which holds a function at most once. *)
Definition callbacks (event : string) (listeners : t) : JSSet.t Env :=
  match JSMap.get event listeners with
  | Some callbacks => callbacks
  | None => []
  end.

Definition listener_calls (callbacks : JSSet.t Env) : list Call :=
  map (fun callback => CallListener (listener_ref callback)) callbacks.

Definition run_listeners (data : EventData) (callbacks : JSSet.t Env) (env : Env) : Env :=
  fold_left (fun env callback => snd (listener_call callback data env)) callbacks env.

Definition wf (listeners : t) : Prop :=
  forall event, NoDup (map listener_ref (callbacks event listeners)).
End Defs.
Arguments t : clear implicits.
End CLIEventEmitter.

(** ** application/cliEngine.ts *)

Module StandardCLIEngine.
Section Defs.
Context {Env : Type}.
Local Open Scope eff_scope.

(** [result.executionTimeMs = ms] *)
Definition set_executionTimeMs (ms : Z) (result : CommandResult) : CommandResult :=
  {| success := success result;
     data := data result;
     error := error result;
     message := message result;
     timestamp := timestamp result;
     executionTimeMs := ms |}.

Definition set_arguments (args : list string) (context : CLIContext) : CLIContext :=
  {| arguments := args;
     options := options context;
     outputFormat := outputFormat context;
     verbose := verbose context |}.

Definition call_validate (command : Command Env) (context : CLIContext)
  : Eff.M (World Env) ValidationOutcome :=
  record (CallValidate (cmd_name command)) ;;
  run_env (cmd_validate command context).

Definition call_execute (command : Command Env) (context : CLIContext)
  : Eff.M (World Env) CommandResult :=
  record (CallExecute (cmd_name command)) ;;
  run_env (cmd_execute command context).

Definition executeCommand
    (commandRegistry : CommandRecordRegistry.t Env)
    (eventEmitter : CLIEventEmitter.t Env)
    (commandName : string) (context : CLIContext)
  : Eff.M (World Env) CommandResult :=
  startTime <- Date_now ;;
  Eff.try_catch
    (match CommandRecordRegistry.get commandName commandRegistry with
     | None => Eff.throw (CommandNotFoundError commandName)
     | Some command =>
         validation <- call_validate command context ;;
         if negb (valid validation) then
           timestamp <- new_Date ;;
           now <- Date_now ;;
           Eff.ret {| success := false;
                      data := JSUndefined;
                      error := Some "Validation failed";
                      message := Some (JSString.join "; " (errors validation));
                      timestamp := timestamp;
                      executionTimeMs := now - startTime |}
         else
           logger DEBUG ("Executing command: " ++ commandName) ;;
           result <- call_execute command context ;;
           now <- Date_now ;;
           let result := set_executionTimeMs (now - startTime) result in
           logger INFO ("Command executed: " ++ commandName) ;;
           CLIEventEmitter.emit eventEmitter "command:executed"
             (CommandExecuted commandName result) ;;
           Eff.ret result
     end)
    (fun error =>
       result <- CLIErrorHandler.handle error (Some context) ;;
       now <- Date_now ;;
       let result := set_executionTimeMs (now - startTime) result in
       logger ERROR ("Command execution failed: " ++ commandName) ;;
       CLIEventEmitter.emit eventEmitter "command:failed"
         (CommandFailed (Some commandName) error) ;;
       Eff.ret result).

Definition execute
    (commandRegistry : CommandRecordRegistry.t Env)
    (eventEmitter : CLIEventEmitter.t Env)
    (args : list string)
  : Eff.M (World Env) CommandResult :=
  startTime <- Date_now ;;
  Eff.try_catch
    (let context := CLIInputValidator.parseArguments args in
     match arguments context with
     | [] => Eff.throw (CommandNotFoundError "No command specified")
     | commandName :: commandArgs =>
         let context := set_arguments commandArgs context in
         executeCommand commandRegistry eventEmitter commandName context
     end)
    (fun error =>
       result <- CLIErrorHandler.handle error None ;;
       now <- Date_now ;;
       let result := set_executionTimeMs (now - startTime) result in
       logger ERROR "CLI execution failed" ;;
       CLIEventEmitter.emit eventEmitter "command:failed"
         (CommandFailed None error) ;;
       Eff.ret result).
End Defs.
End StandardCLIEngine.

(** ** application/pluginManager.ts *)

Section Plugin.
Context {Env : Type}.

(** What a plugin reaches through the container: the shared registry,
    and the environment. *)
Definition PluginScope : Type := CommandRecordRegistry.t Env * Env.

Record Plugin := {
  plugin_initialize : PluginScope -> Completion unit * PluginScope;
  plugin_shutdown : PluginScope -> Completion unit * PluginScope
}.

(** [BasePlugin.shutdown]: do nothing. *)
Definition default_shutdown (s : PluginScope) : Completion unit * PluginScope :=
  (Normal tt, s).
End Plugin.
Arguments Plugin : clear implicits.
Arguments PluginScope : clear implicits.

Module PluginManager.
Section Defs.
Context {Env : Type}.
Local Open Scope eff_scope.

(** The manager's own map and the objects it shares with the rest of
    the application. *)
Record t := {
  loadedPlugins : JSMap.t (Plugin Env);
  commandRegistry : CommandRecordRegistry.t Env;
  eventEmitter : CLIEventEmitter.t Env
}.

Definition State : Type := t * World Env.

Definition in_world {A} (m : Eff.M (World Env) A) : Eff.M State A :=
  Eff.zoom snd (fun w s => (fst s, w)) m.

Definition scope_of (s : State) : PluginScope Env :=
  (commandRegistry (fst s), w_env (snd s)).

Definition set_scope (sc : PluginScope Env) (s : State) : State :=
  ({| loadedPlugins := loadedPlugins (fst s);
      commandRegistry := fst sc;
      eventEmitter := eventEmitter (fst s) |},
   set_env (snd sc) (snd s)).

Definition call_initialize (plugin : Plugin Env) : Eff.M State unit :=
  in_world (record CallInitialize) ;;
  Eff.zoom scope_of set_scope (plugin_initialize plugin).

Definition call_shutdown (plugin : Plugin Env) : Eff.M State unit :=
  in_world (record CallShutdown) ;;
  Eff.zoom scope_of set_scope (plugin_shutdown plugin).

Definition update_loaded (f : JSMap.t (Plugin Env) -> JSMap.t (Plugin Env))
  : Eff.M State unit :=
  Eff.modify (fun s =>
    ({| loadedPlugins := f (loadedPlugins (fst s));
        commandRegistry := commandRegistry (fst s);
        eventEmitter := eventEmitter (fst s) |}, snd s)).

Definition emit (event : string) (data : EventData) : Eff.M State unit :=
  fun s => in_world (CLIEventEmitter.emit (eventEmitter (fst s)) event data) s.

Definition loadPlugin (name : string) (plugin : Plugin Env) : Eff.M State unit :=
  Eff.try_catch
    (in_world (logger INFO ("Loading plugin: " ++ name)) ;;
     call_initialize plugin ;;
     update_loaded (JSMap.set name plugin) ;;
     in_world (logger INFO ("Plugin loaded: " ++ name)) ;;
     emit "plugin:loaded" (PluginEvent name))
    (fun error =>
       in_world (logger ERROR ("Failed to load plugin " ++ name)) ;;
       Eff.throw error).

Definition unloadPlugin (name : string) : Eff.M State unit :=
  fun s =>
    match JSMap.get name (loadedPlugins (fst s)) with
    | None => in_world (logger WARN ("Plugin not found: " ++ name)) s
    | Some plugin =>
        Eff.try_catch
          (in_world (logger INFO ("Unloading plugin: " ++ name)) ;;
           call_shutdown plugin ;;
           update_loaded (JSMap.delete name) ;;
           in_world (logger INFO ("Plugin unloaded: " ++ name)) ;;
           emit "plugin:unloaded" (PluginEvent name))
          (fun error =>
             in_world (logger ERROR ("Failed to unload plugin " ++ name)) ;;
             Eff.throw error) s
    end.

Definition getLoadedPlugins (pm : t) : list string :=
  JSMap.keys (loadedPlugins pm).

Definition isPluginLoaded (name : string) (pm : t) : bool :=
  JSMap.has name (loadedPlugins pm).
End Defs.
Arguments t : clear implicits.
Arguments State : clear implicits.
End PluginManager.

(** ** adapters/agentInterface.ts *)

Inductive ParameterType := type_string | type_number | type_boolean | type_array | type_object.

Record ToolParameter := {
  param_name : string;
  param_type : ParameterType;
  param_description : string;
  param_required : bool
}.

Record ToolResult := {
  tool_success : bool;
  tool_data : JSValue;
  tool_error : option string;
  tool_message : option string
}.

Section AgentTool.
Context {Env : Type}.

(** The [execute] closure of a tool holds a reference to the engine;
    here it is given the registry and the emitter the engine holds at
    the time of the call. *)
Record AgentTool := {
  tool_name : string;
  tool_description : string;
  tool_parameters : list ToolParameter;
  tool_execute :
    CommandRecordRegistry.t Env -> CLIEventEmitter.t Env ->
    JSMap.t JSValue -> Eff.M (World Env) ToolResult
}.
End AgentTool.
Arguments AgentTool : clear implicits.

Module ProgrammaticCLIAgent.
Section Defs.
Context {Env : Type}.
Local Open Scope eff_scope.

(** The agent's own state is its map of tools. *)
Record t := { tools : JSMap.t (AgentTool Env) }.

Definition parseUsageToParameters (usage : string) : list ToolParameter :=
  let parts := tl (JSString.split_ws usage) in
  map (fun part =>
         let paramName := JSString.strip_angles part in
         {| param_name := paramName;
            param_type := type_string;
            param_description := "Parameter: " ++ paramName;
            param_required := true |})
      (filter (fun part =>
                 JSString.startsWith "<" part && JSString.endsWith ">" part)
              parts).

(** [Object.values(params)]: the values of the keys that are array
    indices (["0"], ["7"], ["42"]; no sign, no leading zero, below
    [2^32 - 1]) come first, by ascending index, then those of the other
    keys in the order in which they were added. *)
Definition digit_of (c : ascii) : option N :=
  let n := N_of_ascii c in
  if (48 <=? n)%N && (n <=? 57)%N then Some (n - 48)%N else None.

Fixpoint digits_value (s : string) (acc : N) : option N :=
  match s with
  | EmptyString => Some acc
  | String c s' =>
      match digit_of c with
      | Some d => digits_value s' (10 * acc + d)%N
      | None => None
      end
  end.

Definition array_index (key : string) : option N :=
  match key with
  | EmptyString => None
  | String "0" EmptyString => Some 0%N
  | String "0" _ => None
  | _ =>
      match digits_value key 0 with
      | Some n => if (n <=? 4294967294)%N then Some n else None
      | None => None
      end
  end.

Fixpoint insert_by_index (entry : N * JSValue) (sorted : list (N * JSValue))
  : list (N * JSValue) :=
  match sorted with
  | [] => [entry]
  | first :: rest =>
      if (fst entry <? fst first)%N then entry :: sorted
      else first :: insert_by_index entry rest
  end.

Definition indexed_entries (params : JSMap.t JSValue) : list (N * JSValue) :=
  fold_left (fun sorted kv =>
               match array_index (fst kv) with
               | Some i => insert_by_index (i, snd kv) sorted
               | None => sorted
               end)
            params [].

Definition Object_values (params : JSMap.t JSValue) : list JSValue :=
  map snd (indexed_entries params)
  ++ map snd (filter (fun kv => match array_index (fst kv) with
                                | Some _ => false
                                | None => true
                                end)
                     params).

(** [values as string[]]: the cast is not checked when the program
    runs.  On a list of strings it is the identity; a value of another
    type has no counterpart in [arguments : list string] and is left
    out, so the embedding is exact for the callers that respect the
    declared type. *)
Definition as_strings (values : list JSValue) : list string :=
  flat_map (fun v => match v with JSString s => [s] | _ => [] end) values.

(** [Object.values(params).filter((v) => v) as string[]] *)
Definition truthy_values (params : JSMap.t JSValue) : list string :=
  as_strings (filter truthy (Object_values params)).

Definition is_true (o : option JSValue) : bool :=
  match o with Some (JSBool true) => true | _ => false end.

Definition tool_of (command : Command Env) : AgentTool Env :=
  {| tool_name := cmd_name command;
     tool_description := cmd_description command;
     tool_parameters := parseUsageToParameters (cmd_usage command);
     tool_execute := fun commandRegistry eventEmitter params =>
       let context :=
         {| arguments := truthy_values params;
            options := params;
            outputFormat := json;
            verbose := is_true (JSMap.get "verbose" params) |} in
       result <- StandardCLIEngine.executeCommand
                   commandRegistry eventEmitter (cmd_name command) context ;;
       Eff.ret {| tool_success := success result;
                  tool_data := data result;
                  tool_error := error result;
                  tool_message := message result |} |}.

Definition buildToolsFromCommands
    (commandRegistry : CommandRecordRegistry.t Env) (agent : t) : t :=
  let commands := CommandRecordRegistry.getAll commandRegistry in
  {| tools :=
       fold_left (fun tools command =>
                    JSMap.set (cmd_name command) (tool_of command) tools)
                 commands (tools agent) |}.

(** [new ProgrammaticCLIAgent(cliEngine, commandRegistry)] *)
Definition new (commandRegistry : CommandRecordRegistry.t Env) : t :=
  buildToolsFromCommands commandRegistry {| tools := JSMap.empty |}.

Definition execute (agent : t)
    (commandRegistry : CommandRecordRegistry.t Env)
    (eventEmitter : CLIEventEmitter.t Env)
    (commandName : string) (args : JSMap.t JSValue)
  : Eff.M (World Env) ToolResult :=
  match JSMap.get commandName (tools agent) with
  | None =>
      Eff.ret {| tool_success := false;
                 tool_data := JSUndefined;
                 tool_error := Some ("Tool '" ++ commandName ++ "' not found")%string;
                 tool_message := None |}
  | Some tool =>
      Eff.try_catch
        (tool_execute tool commandRegistry eventEmitter args)
        (fun error =>
           Eff.ret {| tool_success := false;
                      tool_data := JSUndefined;
                      tool_error :=
                        Some (match error with
                              | ErrorObject e => err_message e
                              | ThrownValue p => String_of p
                              end);
                      tool_message := None |})
  end.

Definition getTools (agent : t) : list (AgentTool Env) :=
  JSMap.values (tools agent).

Definition getTool (toolName : string) (agent : t) : option (AgentTool Env) :=
  JSMap.get toolName (tools agent).

(** The agent and the registry it was built from, side by side:
    [register] acts on the registry only. *)
Record System := {
  sys_registry : CommandRecordRegistry.t Env;
  sys_agent : t
}.

Definition construct (commandRegistry : CommandRecordRegistry.t Env) : System :=
  {| sys_registry := commandRegistry; sys_agent := new commandRegistry |}.

Definition register (command : Command Env) (s : System) : System :=
  {| sys_registry := CommandRecordRegistry.register command (sys_registry s);
     sys_agent := sys_agent s |}.

Definition register_all (commands : list (Command Env)) (s : System) : System :=
  fold_left (fun s command => register command s) commands s.
End Defs.
Arguments t : clear implicits.
Arguments System : clear implicits.
End ProgrammaticCLIAgent.

(** ** Sequences of operations

    The states an object can reach are those built from the empty one by
    its own operations; the properties of reachable states are stated over
    such sequences. *)

Section Operations.
Context {Env : Type}.

Inductive RegistryOp : Type :=
| Register (command : Command Env)
| Unregister (commandName : string).

Definition registry_step (commands : CommandRecordRegistry.t Env) (op : RegistryOp)
  : CommandRecordRegistry.t Env :=
  match op with
  | Register command => CommandRecordRegistry.register command commands
  | Unregister commandName => CommandRecordRegistry.unregister commandName commands
  end.

Definition registry_after (ops : list RegistryOp) : CommandRecordRegistry.t Env :=
  fold_left registry_step ops CommandRecordRegistry.empty.

Inductive EmitterOp : Type :=
| On (event : string) (callback : Listener Env)
| Off (event : string) (callback : Listener Env).

Definition emitter_step (listeners : CLIEventEmitter.t Env) (op : EmitterOp)
  : CLIEventEmitter.t Env :=
  match op with
  | On event callback => CLIEventEmitter.on event callback listeners
  | Off event callback => CLIEventEmitter.off event callback listeners
  end.

Definition emitter_after (ops : list EmitterOp) : CLIEventEmitter.t Env :=
  fold_left emitter_step ops CLIEventEmitter.empty.

(** The world after one reading of the clock. *)
Definition tick (w : World Env) : World Env := snd (Date_now w).

(** What a command throws when the dispatcher runs it on a context:
    [validate] first, then [execute] if the context was accepted. *)
Definition thrown_by (command : Command Env) (context : CLIContext) (env : Env)
  : option Thrown :=
  match cmd_validate command context env with
  | (Throw thrown, _) => Some thrown
  | (Normal validation, env1) =>
      if valid validation then
        match cmd_execute command context env1 with
        | (Throw thrown, _) => Some thrown
        | (Normal _, _) => None
        end
      else None
  end.

(** The thrown values whose [message] cannot be read: [undefined] and
    [null]. *)
Definition unreadable (thrown : option Thrown) : option Primitive :=
  match thrown with
  | Some (ThrownValue PUndefined) => Some PUndefined
  | Some (ThrownValue PNull) => Some PNull
  | _ => None
  end.
End Operations.
Arguments RegistryOp : clear implicits.
Arguments EmitterOp : clear implicits.

(** ** infrastructure/eventEmitter.ts, with callbacks that reach the emitter

    A callback that holds the emitter can call [on], [off] and [emit]
    while an emission is under way, and [emit] walks the [Set] of the
    event as it is at each step.  Here the listeners are part of the
    state.  A [Set] keeps its entries in the order of their addition;
    [delete] empties the entry and leaves its place, [add] appends, and
    [forEach] goes from place to place until it is past the last one. *)

Module LiveEmitter.
Section Defs.
Context {Env : Type}.

(** What a call of a callback does: it returns or throws, leaving an
    environment, or it first calls the emitter.  [CallEmit] carries the
    environment the callback has left so far, and goes on from the one
    the emission leaves. *)
Inductive Script : Type :=
| Return (env : Env)
| Raise (error : Thrown) (env : Env)
| CallOn (event : string) (callback : Callback) (next : Script)
| CallOff (event : string) (callback : Callback) (next : Script)
| CallEmit (event : string) (data : EventData) (env : Env) (next : Env -> Script)
with Callback : Type :=
| Function_ (ref : nat) (code : EventData -> Env -> Script).

Definition callback_ref (callback : Callback) : nat :=
  match callback with Function_ ref _ => ref end.

Definition callback_code (callback : Callback) : EventData -> Env -> Script :=
  match callback with Function_ _ code => code end.

(** [Set<callback>]: the places, of which some have been emptied. *)
Definition Slots : Type := list (option Callback).

Definition holds (callback : Callback) (slot : option Callback) : bool :=
  match slot with
  | Some other => Nat.eqb (callback_ref callback) (callback_ref other)
  | None => false
  end.

Definition add (callback : Callback) (slots : Slots) : Slots :=
  if existsb (holds callback) slots then slots else slots ++ [Some callback].

Definition delete (callback : Callback) (slots : Slots) : Slots :=
  map (fun slot => if holds callback slot then None else slot) slots.

Definition t : Type := JSMap.t Slots.

Definition empty : t := JSMap.empty.

Definition no_slots : Slots := [].

Definition on (event : string) (callback : Callback) (listeners : t) : t :=
  let listeners :=
    if negb (JSMap.has event listeners)
    then JSMap.set event no_slots listeners else listeners in
  match JSMap.get event listeners with
  | Some callbacks => JSMap.set event (add callback callbacks) listeners
  | None => listeners
  end.

Definition off (event : string) (callback : Callback) (listeners : t) : t :=
  if negb (JSMap.has event listeners) then listeners
  else match JSMap.get event listeners with
       | Some callbacks => JSMap.set event (delete callback callbacks) listeners
       | None => listeners
       end.

(** The [Set] of an event, and the callbacks it holds, in order. *)
Definition callbacks (event : string) (listeners : t) : Slots :=
  match JSMap.get event listeners with
  | Some callbacks => callbacks
  | None => no_slots
  end.

Definition held (slots : Slots) : list Callback :=
  flat_map (fun slot => match slot with Some callback => [callback] | None => [] end)
           slots.

Definition listener_calls (slots : Slots) : list Call :=
  map (fun callback => CallListener (callback_ref callback)) (held slots).

(** The world and the listeners of the emitter. *)
Record State := {
  st_world : World Env;
  st_listeners : t
}.

Definition with_world (w : World Env) (st : State) : State :=
  {| st_world := w; st_listeners := st_listeners st |}.

Definition with_listeners (listeners : t) (st : State) : State :=
  {| st_world := st_world st; st_listeners := listeners |}.

Definition with_env (env : Env) (st : State) : State :=
  with_world (set_env env (st_world st)) st.

Definition note (c : Call) (st : State) : State :=
  with_world (snd (record c (st_world st))) st.

Definition report (event : string) (error : Thrown) (st : State) : State :=
  with_world
    (snd (console_error ("Error in event listener for '" ++ event ++ "':") error
            (st_world st)))
    st.

(** [run] is the call of a callback, [emit] is [emit], and [forEach] is
    [callbacks.forEach] from a place on.  [on] creates the [Set] of an
    event once and nothing replaces it, so that the [Set] that [emit]
    took from the map is, at every step, the one the map holds for the
    event: [forEach] reads it there.  A callback can emit again and a
    [Set] can grow under [forEach], so that none of the three need end:
    [fuel] bounds the depth of the calls, and [None] is the answer when
    it runs out. *)
Fixpoint run (fuel : nat) (script : Script) (st : State) {struct fuel}
  : option (Completion unit * State) :=
  match fuel with
  | 0 => None
  | S fuel =>
      match script with
      | Return env => Some (Normal tt, with_env env st)
      | Raise error env => Some (Throw error, with_env env st)
      | CallOn event callback next =>
          run fuel next (with_listeners (on event callback (st_listeners st)) st)
      | CallOff event callback next =>
          run fuel next (with_listeners (off event callback (st_listeners st)) st)
      | CallEmit event data env next =>
          match emit fuel event data (with_env env st) with
          | Some (Normal _, st') => run fuel (next (w_env (st_world st'))) st'
          | Some (Throw error, st') => Some (Throw error, st')
          | None => None
          end
      end
  end
with emit (fuel : nat) (event : string) (data : EventData) (st : State) {struct fuel}
  : option (Completion unit * State) :=
  match fuel with
  | 0 => None
  | S fuel =>
      let st := note (Emit event data) st in
      if negb (JSMap.has event (st_listeners st)) then Some (Normal tt, st)
      else match JSMap.get event (st_listeners st) with
           | Some _ => forEach fuel event data 0 st
           | None => Some (Normal tt, st)
           end
  end
with forEach (fuel : nat) (event : string) (data : EventData) (index : nat)
             (st : State) {struct fuel}
  : option (Completion unit * State) :=
  match fuel with
  | 0 => None
  | S fuel =>
      match nth_error (callbacks event (st_listeners st)) index with
      | None => Some (Normal tt, st)
      | Some None => forEach fuel event data (S index) st
      | Some (Some callback) =>
          let st := note (CallListener (callback_ref callback)) st in
          match run fuel (callback_code callback data (w_env (st_world st))) st with
          | Some (Normal _, st') => forEach fuel event data (S index) st'
          | Some (Throw error, st') =>
              forEach fuel event data (S index) (report event error st')
          | None => None
          end
      end
  end.

(** A call that ends without calling the emitter, and what it leaves. *)
Definition quiet (script : Script) : bool :=
  match script with
  | Return _ | Raise _ _ => true
  | _ => false
  end.

Definition ending (script : Script) (env0 : Env) : Completion unit * Env :=
  match script with
  | Return env => (Normal tt, env)
  | Raise error env => (Throw error, env)
  | _ => (Normal tt, env0)
  end.

(** A callback as the emitter of [CLIEventEmitter] sees it, when its
    calls are quiet. *)
Definition as_listener (callback : Callback) : Listener Env :=
  {| listener_ref := callback_ref callback;
     listener_call := fun data env => ending (callback_code callback data env) env |}.

Definition as_emitter (listeners : t) : CLIEventEmitter.t Env :=
  map (fun entry => (fst entry, map as_listener (held (snd entry)))) listeners.

(** The listeners an emitter can come to hold: those built from none by
    [on] and [off]; and the invariant of a [Set], which holds a function
    at most once. *)
Inductive Op : Type :=
| OpOn (event : string) (callback : Callback)
| OpOff (event : string) (callback : Callback).

Definition step (listeners : t) (op : Op) : t :=
  match op with
  | OpOn event callback => on event callback listeners
  | OpOff event callback => off event callback listeners
  end.

Definition after (ops : list Op) : t := fold_left step ops empty.

Definition wf (listeners : t) : Prop :=
  forall event, NoDup (map callback_ref (held (callbacks event listeners))).
End Defs.
Arguments Script : clear implicits.
Arguments Op : clear implicits.
Arguments Callback : clear implicits.
Arguments Slots : clear implicits.
Arguments t : clear implicits.
Arguments State : clear implicits.
End LiveEmitter.

(** ** infrastructure/validators.ts: [validate] *)

Module InputValidation.

(** [s.trimStart()], [s.trimEnd()] and [s.trim()] *)
Fixpoint trimStart (s : string) : string :=
  match s with
  | EmptyString => EmptyString
  | String c s' => if JSString.is_space c then trimStart s' else s
  end.

Fixpoint trimEnd (s : string) : string :=
  match s with
  | EmptyString => EmptyString
  | String c s' =>
      match trimEnd s' with
      | EmptyString => if JSString.is_space c then EmptyString else String c EmptyString
      | rest => String c rest
      end
  end.

Definition trim (s : string) : string := trimEnd (trimStart s).

Definition validate (input : string) : ValidationOutcome :=
  if negb (JSString.truthy input) || Nat.eqb (String.length (trim input)) 0
  then {| valid := false; errors := ["Input cannot be empty"%string] |}
  else {| valid := true; errors := [] |}.

(** A string made of white space only. *)
Fixpoint blank (s : string) : bool :=
  match s with
  | EmptyString => true
  | String c s' => JSString.is_space c && blank s'
  end.

End InputValidation.

(** ** infrastructure/diContainer.ts *)

Section Service.
Context {Env : Type}.

(** What a container holds is any value; the code tells functions from
    the rest with [typeof service === 'function'] and calls them without
    argument. *)
Inductive Service : Type :=
| Instance (value : JSValue)
| Function (call : Env -> Completion Service * Env).
End Service.
Arguments Service : clear implicits.

Module DIContainer.
Section Defs.
Context {Env : Type}.

Record t := {
  services : JSMap.t (Service Env);
  singletons : JSMap.t (Service Env)
}.

(** [new DIContainer()] *)
Definition empty : t := {| services := JSMap.empty; singletons := JSMap.empty |}.

Definition register (key : string) (service : Service Env) (c : t) : t :=
  {| services := JSMap.set key service (services c);
     singletons := singletons c |}.

Definition not_found (key : string) : JSError :=
  {| err_name := "Error";
     err_message := "Service '" ++ key ++ "' not found in container" |}.

Definition get (key : string) : Eff.M (t * Env) (Service Env) :=
  fun s =>
    let c := fst s in
    if JSMap.has key (services c) then
      match JSMap.get key (services c) with
      | Some (Function call) =>
          if negb (JSMap.has key (singletons c)) then
            match call (snd s) with
            | (Normal instance, env') =>
                (Normal instance,
                 ({| services := services c;
                     singletons := JSMap.set key instance (singletons c) |}, env'))
            | (Throw e, env') => (Throw e, (c, env'))
            end
          else (Normal (Function call), s)
      | Some service => (Normal service, s)
      | None => (Normal (Instance JSUndefined), s)
      end
    else (Throw (not_found key), s).

Definition has (key : string) (c : t) : bool := JSMap.has key (services c).

Definition registerSingleton (key : string) (instance : Service Env) (c : t) : t :=
  {| services := JSMap.set key instance (services c);
     singletons := JSMap.set key instance (singletons c) |}.

Definition registerFactory (key : string) (factory : Env -> Completion (Service Env) * Env)
    (c : t) : t :=
  {| services := JSMap.set key (Function factory) (services c);
     singletons := singletons c |}.

Definition clear (c : t) : t := empty.
End Defs.
Arguments t : clear implicits.
End DIContainer.

(** ** application/builtinCommands.ts

    [EchoCommand].  It stamps its result with [new Date()]; [new_Date] is
    that reading, taken in the environment. *)

Module BuiltinCommands.
Section Defs.
Context {Env : Type}.
Variable new_Date : Env -> Z * Env.

Definition EchoCommand : Command Env :=
  {| cmd_name := "echo";
     cmd_description := "Echo back the provided input (useful for testing)";
     cmd_usage := "echo <message>";
     cmd_validate := fun context env =>
       (Normal (if Nat.eqb (length (arguments context)) 0
                then {| valid := false; errors := ["Message is required"%string] |}
                else {| valid := true; errors := [] |}), env);
     cmd_execute := fun context env =>
       let message := JSString.join " " (arguments context) in
       let (now, env') := new_Date env in
       (Normal {| success := true;
                  data := JSObject [("message"%string, JSString message)];
                  error := None;
                  message := Some "Echo successful"%string;
                  timestamp := now;
                  executionTimeMs := 0 |}, env') |}.

End Defs.
End BuiltinCommands.

(** ** Views of the parser, token by token

    What one token does to [verbose] and to [outputFormat], read off the
    branches of [parseArguments]. *)

Module TokenViews.

Definition is_positional (arg : string) : bool :=
  negb (JSString.startsWith "-" arg).

Definition long_key_of (arg : string) : string :=
  CLIInputValidator.long_key (JSString.split "=" (JSString.substring_from 2 arg)).

Definition long_value_of (arg : string) : JSValue :=
  CLIInputValidator.long_value (JSString.split "=" (JSString.substring_from 2 arg)).

Definition sets_verbose (arg : string) : bool :=
  if JSString.startsWith "--" arg then String.eqb (long_key_of arg) "verbose"
  else if JSString.startsWith "-" arg
       then JSString.has_char "v" (JSString.substring_from 1 arg)
       else false.

Definition format_effect (arg : string) : option OutputFormat :=
  if JSString.startsWith "--" arg then
    if String.eqb (long_key_of arg) "output" || String.eqb (long_key_of arg) "format"
    then Some (match long_value_of arg with
               | JSString v => if String.eqb v "json" then json else text
               | _ => text
               end)
    else None
  else if JSString.startsWith "-" arg then
    if JSString.has_char "j" (JSString.substring_from 1 arg) then Some json else None
  else None.

End TokenViews.

(** ** Sample commands, listeners and plugins

    The values below are used to run the definitions on concrete inputs.
    Their environment is a counter that the sample code increments when it
    runs. *)

Module Samples.

(** [EchoCommand] of [application/builtinCommands.ts], under a name of
    one's choice; [execute] also counts its calls. *)
Definition EchoCommand (name : string) : Command nat :=
  {| cmd_name := name;
     cmd_description := "Echo back the provided input (useful for testing)";
     cmd_usage := "echo <message>";
     cmd_validate := fun context env =>
       (Normal (match arguments context with
                | [] => {| valid := false; errors := ["Message is required"] |}
                | _ :: _ => {| valid := true; errors := [] |}
                end), env);
     cmd_execute := fun context env =>
       (Normal {| success := true;
                  data := JSObject
                    [("message", JSString (JSString.join " " (arguments context)))];
                  error := None;
                  message := Some "Echo successful";
                  timestamp := 0;
                  executionTimeMs := 0 |}, S env) |}.

(** The name [stra] + sharp s + [e], in UTF-8. *)
Definition sharp_s_name : string :=
  "stra" ++ String JSString.sharp_s_lead (String JSString.sharp_s_trail "e").

Definition boom : JSError :=
  {| err_name := "ConfigError"; err_message := "API key is missing" |}.

Definition throwing_listener (ref : nat) : Listener nat :=
  {| listener_ref := ref;
     listener_call := fun _ env => (Throw boom, env) |}.

Definition counting_listener (ref : nat) : Listener nat :=
  {| listener_ref := ref;
     listener_call := fun _ env => (Normal tt, S env) |}.

Definition failing_plugin : Plugin nat :=
  {| plugin_initialize := fun s => (Throw boom, s);
     plugin_shutdown := default_shutdown |}.

Definition echo_plugin : Plugin nat :=
  {| plugin_initialize := fun s =>
       (Normal tt, (CommandRecordRegistry.register (EchoCommand "echo") (fst s), snd s));
     plugin_shutdown := default_shutdown |}.

Definition world0 : World nat :=
  {| w_env := 0;
     w_clock := fun n => (1000 + 7 * Z.of_nat n)%Z;
     w_ticks := 0;
     w_log := [];
     w_console := [];
     w_trace := [] |}.

Definition registry0 : CommandRecordRegistry.t nat :=
  CommandRecordRegistry.register (EchoCommand "echo") CommandRecordRegistry.empty.

(** Another command that calls itself [echo]. *)
Definition ShoutCommand : Command nat :=
  {| cmd_name := "echo";
     cmd_description := "Echo back the input in upper case";
     cmd_usage := "echo <message> <times>";
     cmd_validate := default_validate;
     cmd_execute := fun context env =>
       (Normal {| success := true;
                  data := JSString (JSString.toUpperCase
                                      (JSString.join " " (arguments context)));
                  error := None;
                  message := None;
                  timestamp := 0;
                  executionTimeMs := 0 |}, S env) |}.

Definition context0 (args : list string) : CLIContext :=
  {| arguments := args; options := JSMap.empty;
     outputFormat := text; verbose := false |}.

Definition manager0 : PluginManager.t nat :=
  {| PluginManager.loadedPlugins := JSMap.empty;
     PluginManager.commandRegistry := CommandRecordRegistry.empty;
     PluginManager.eventEmitter := CLIEventEmitter.empty |}.

(** The state after a plugin was loaded under the name [images]. *)
Definition loaded0 : PluginManager.State nat :=
  snd (PluginManager.loadPlugin "images" echo_plugin (manager0, world0)).

(** An emitter with a throwing listener, then a counting one. *)
Definition emitter0 : CLIEventEmitter.t nat :=
  CLIEventEmitter.on "startup" (throwing_listener 1) CLIEventEmitter.empty.

Definition failed (e m : option string) : CommandResult :=
  {| success := false; data := JSUndefined; error := e; message := m;
     timestamp := 0; executionTimeMs := 50 |}.

Definition succeeded (m : option string) : CommandResult :=
  {| success := true; data := JSObject [("value", JSNumber 42)];
     error := None; message := m; timestamp := 0; executionTimeMs := 123 |}.

End Samples.

(** ** Further sample values *)

Module MoreSamples.

(** A registry with [echo] then [repeat]. *)
Definition registry2 : CommandRecordRegistry.t nat :=
  CommandRecordRegistry.register (Samples.EchoCommand "repeat") Samples.registry0.

(** [echo] is registered, replaced, and [repeat] comes and goes. *)
Definition ops2 : list (RegistryOp nat) :=
  [Register (Samples.EchoCommand "Echo");
   Register (Samples.EchoCommand "repeat");
   Register Samples.ShoutCommand;
   Unregister "REPEAT"].



(** A command whose [execute] does [throw undefined]. *)
Definition CarelessCommand : Command nat :=
  {| cmd_name := "careless";
     cmd_description := "Throws nothing in particular";
     cmd_usage := "careless";
     cmd_validate := default_validate;
     cmd_execute := fun context env => (Throw (ThrownValue PUndefined), S env) |}.

Definition registry5 : CommandRecordRegistry.t nat :=
  CommandRecordRegistry.register CarelessCommand Samples.registry0.



(** The environment is a counter; a reading of the clock in it returns
    the count and steps it. *)
Definition count_Date (env : nat) : Z * nat := (Z.of_nat env, S env).

Definition registry4 : CommandRecordRegistry.t nat :=
  CommandRecordRegistry.register (BuiltinCommands.EchoCommand count_Date)
    CommandRecordRegistry.empty.

(** A callback registered twice, another registered and removed. *)
Definition ops3 : list (EmitterOp nat) :=
  [On "startup" (Samples.counting_listener 1);
   On "startup" (Samples.counting_listener 2);
   On "startup" (Samples.counting_listener 1);
   Off "startup" (Samples.counting_listener 2)].

(** A plugin that loads but refuses to shut down, and the state after it
    was loaded under the name [images]. *)
Definition stubborn_plugin : Plugin nat :=
  {| plugin_initialize := fun s => (Normal tt, s);
     plugin_shutdown := fun s => (Throw Samples.boom, s) |}.

Definition loaded1 : PluginManager.State nat :=
  snd (PluginManager.loadPlugin "images" stubborn_plugin
         (Samples.manager0, Samples.world0)).

(** A factory that builds a logger-like value and counts its calls. *)
Definition logger_factory (env : nat) : Completion (Service nat) * nat :=
  (Normal (Instance (JSObject [("level"%string, JSString "info")])), S env).

(** Callbacks that hold the emitter: one that counts, one that throws,
    one that removes another callback from an event and then throws, and
    one that adds another callback to an event. *)
Definition counting_callback (ref : nat) : LiveEmitter.Callback nat :=
  LiveEmitter.Function_ ref (fun _ env => LiveEmitter.Return (S env)).

Definition throwing_callback (ref : nat) : LiveEmitter.Callback nat :=
  LiveEmitter.Function_ ref (fun _ env => LiveEmitter.Raise Samples.boom env).

Definition silencing_callback (ref : nat) (event : string)
    (other : LiveEmitter.Callback nat) : LiveEmitter.Callback nat :=
  LiveEmitter.Function_ ref
    (fun _ env => LiveEmitter.CallOff event other (LiveEmitter.Raise Samples.boom env)).

Definition inviting_callback (ref : nat) (event : string)
    (other : LiveEmitter.Callback nat) : LiveEmitter.Callback nat :=
  LiveEmitter.Function_ ref
    (fun _ env => LiveEmitter.CallOn event other (LiveEmitter.Return (S env))).

Definition state_of (listeners : LiveEmitter.t nat) : LiveEmitter.State nat :=
  {| LiveEmitter.st_world := Samples.world0; LiveEmitter.st_listeners := listeners |}.

(** [startup] with a callback that throws and one that counts. *)
Definition live0 : LiveEmitter.t nat :=
  LiveEmitter.on "startup" (counting_callback 2)
    (LiveEmitter.on "startup" (throwing_callback 1) LiveEmitter.empty).

(** [startup] with a callback that removes the second one and throws. *)
Definition live1 : LiveEmitter.t nat :=
  LiveEmitter.on "startup" (counting_callback 2)
    (LiveEmitter.on "startup"
       (silencing_callback 1 "startup" (counting_callback 2)) LiveEmitter.empty).

(** A callback registered twice, another registered and removed. *)
Definition live_ops : list (LiveEmitter.Op nat) :=
  [LiveEmitter.OpOn "startup" (counting_callback 1);
   LiveEmitter.OpOn "startup" (counting_callback 2);
   LiveEmitter.OpOn "startup" (counting_callback 1);
   LiveEmitter.OpOff "startup" (counting_callback 2)].

(** [startup] with a callback that registers another one. *)
Definition live2 : LiveEmitter.t nat :=
  LiveEmitter.on "startup"
    (inviting_callback 1 "startup" (counting_callback 2)) LiveEmitter.empty.

End MoreSamples.

(** * Properties *)

(** ** Strings *)

Section StringFacts.
Import JSString.

Lemma lower_upper_char (c : ascii) : lower_char (upper_char c) = lower_char c.
Proof. destruct c as [[] [] [] [] [] [] [] []]; reflexivity. Qed.

Lemma lower_lower_char (c : ascii) : lower_char (lower_char c) = lower_char c.
Proof. destruct c as [[] [] [] [] [] [] [] []]; reflexivity. Qed.

Lemma map_chars_compose (f g : ascii -> ascii) (s : string) :
  map_chars f (map_chars g s) = map_chars (fun c => f (g c)) s.
Proof. induction s as [|c s IH]; simpl; [reflexivity | now rewrite IH]. Qed.

Lemma map_chars_ext (f g : ascii -> ascii) (s : string) :
  (forall c, f c = g c) -> map_chars f s = map_chars g s.
Proof.
  intros Hfg. induction s as [|c s IH]; simpl; [reflexivity|].
  now rewrite Hfg, IH.
Qed.

Lemma toUpperCase_ascii (s : string) :
  is_ascii s = true -> toUpperCase s = map_chars upper_char s.
Proof.
  induction s as [|c s IH]; [reflexivity|].
  cbn [is_ascii]. intros H. apply andb_true_iff in H as [Hc Hs].
  specialize (IH Hs). cbn [toUpperCase map_chars].
  destruct s as [|d s']; [reflexivity|].
  assert (Hlead : Ascii.eqb c sharp_s_lead = false).
  { apply Ascii.eqb_neq. intros ->. discriminate Hc. }
  rewrite Hlead. cbn [andb]. now rewrite IH.
Qed.

Lemma toLowerCase_toUpperCase (s : string) :
  is_ascii s = true -> toLowerCase (toUpperCase s) = toLowerCase s.
Proof.
  intros H. rewrite (toUpperCase_ascii s H).
  unfold toLowerCase. rewrite map_chars_compose.
  apply map_chars_ext, lower_upper_char.
Qed.

Lemma toLowerCase_idempotent (s : string) :
  toLowerCase (toLowerCase s) = toLowerCase s.
Proof.
  unfold toLowerCase. rewrite map_chars_compose.
  apply map_chars_ext, lower_lower_char.
Qed.
End StringFacts.

(** ** Maps *)

Section JSMapFacts.
Context {V : Type}.
Implicit Types (m : JSMap.t V) (k : string) (v : V).

Lemma get_set_same k v m : JSMap.get k (JSMap.set k v m) = Some v.
Proof.
  induction m as [|[k' v'] m IH]; simpl.
  - now rewrite String.eqb_refl.
  - destruct (String.eqb k k') eqn:E; simpl.
    + now rewrite String.eqb_refl.
    + now rewrite E.
Qed.

Lemma get_set_other k k' v m :
  k <> k' -> JSMap.get k' (JSMap.set k v m) = JSMap.get k' m.
Proof.
  intros Hne. induction m as [|[k0 v0] m IH]; simpl.
  - destruct (String.eqb k' k) eqn:E; [|reflexivity].
    apply String.eqb_eq in E. congruence.
  - destruct (String.eqb k k0) eqn:E; simpl.
    + apply String.eqb_eq in E. subst k0.
      destruct (String.eqb k' k) eqn:E'; [|reflexivity].
      apply String.eqb_eq in E'. congruence.
    + now rewrite IH.
Qed.

Lemma set_length_present k v v0 m :
  JSMap.get k m = Some v0 -> length (JSMap.set k v m) = length m.
Proof.
  induction m as [|[k' v'] m IH]; simpl; [discriminate|].
  destruct (String.eqb k k'); simpl; [reflexivity|].
  intros H. now rewrite IH.
Qed.

Lemma get_none_not_key k m : JSMap.get k m = None <-> ~ In k (JSMap.keys m).
Proof.
  induction m as [|[k' v'] m IH]; simpl.
  - tauto.
  - destruct (String.eqb k k') eqn:E.
    + apply String.eqb_eq in E. subst. split; [discriminate | tauto].
    + apply String.eqb_neq in E. rewrite IH. split.
      * intros Hn [->|Hin]; tauto.
      * tauto.
Qed.

Lemma set_fresh k v m : JSMap.get k m = None -> JSMap.set k v m = m ++ [(k, v)].
Proof.
  induction m as [|[k' v'] m IH]; simpl; [reflexivity|].
  destruct (String.eqb k k'); [discriminate|].
  intros H. now rewrite IH.
Qed.

Lemma set_get_same k v m : JSMap.get k m = Some v -> JSMap.set k v m = m.
Proof.
  induction m as [|[k' v'] m IH]; simpl; [discriminate|].
  destruct (String.eqb k k') eqn:E.
  - apply String.eqb_eq in E. subst. congruence.
  - intros H. now rewrite IH.
Qed.

Lemma get_delete_same k m : JSMap.get k (JSMap.delete k m) = None.
Proof.
  unfold JSMap.delete.
  induction m as [|[k' v'] m IH]; simpl; [reflexivity|].
  destruct (String.eqb k k') eqn:E; simpl; [exact IH|].
  now rewrite E.
Qed.
End JSMapFacts.

(** ** The registry *)

Section RegistryFacts.
Context {Env : Type}.
Import CommandRecordRegistry.

Lemma get_register_same (c : Command Env) (r : t Env) (n : string) :
  JSString.toLowerCase n = JSString.toLowerCase (cmd_name c) ->
  get n (register c r) = Some c.
Proof.
  intros H. unfold get, register. rewrite H. apply get_set_same.
Qed.

(** C5, as amended. When two commands have names that are equal up to
    case and are registered one after the other, the second registration
    replaces the first without failing: the registry does not grow, and a
    lookup by either name or by its lower-cased form returns the second
    command.  So does a lookup by the upper-cased form of a name made of
    ASCII characters. *)
Theorem register_same_name_last_wins (c1 c2 : Command Env) (r : t Env) :
  JSString.toLowerCase (cmd_name c1) = JSString.toLowerCase (cmd_name c2) ->
  let r' := register c2 (register c1 r) in
  length r' = length (register c1 r) /\
  forall n, n = cmd_name c1 \/ n = cmd_name c2 ->
    get (JSString.toLowerCase n) r' = Some c2 /\
    get n r' = Some c2 /\
    (JSString.is_ascii n = true -> get (JSString.toUpperCase n) r' = Some c2).
Proof.
  intros Hfold r'. split.
  - unfold r', register. rewrite <- Hfold.
    apply set_length_present with (v0 := c1), get_set_same.
  - intros n Hn.
    assert (Hn' : JSString.toLowerCase n = JSString.toLowerCase (cmd_name c2))
      by (destruct Hn; subst; congruence).
    repeat split; [| |intros Hascii]; apply get_register_same; trivial.
    + now rewrite toLowerCase_idempotent.
    + now rewrite toLowerCase_toUpperCase.
Qed.
End RegistryFacts.

Lemma register_same_name_last_wins_witness :
  JSString.toLowerCase "Echo" = JSString.toLowerCase "echo" /\
  JSString.is_ascii "Echo" = true /\
  CommandRecordRegistry.get "ECHO"
    (CommandRecordRegistry.register (Samples.EchoCommand "echo")
       (CommandRecordRegistry.register (Samples.EchoCommand "Echo") CommandRecordRegistry.empty))
  = Some (Samples.EchoCommand "echo").
Proof.
  split; [reflexivity|]. split; [reflexivity|].
  exact (proj2 (proj2 (proj2 (register_same_name_last_wins
                                (Samples.EchoCommand "Echo") (Samples.EchoCommand "echo")
                                CommandRecordRegistry.empty eq_refl)
                             "Echo" (or_introl eq_refl)))
               eq_refl).
Defined.

(** C5 as stated fails for a name with a sharp s: its upper case is
    written with [SS], whose lower case is [ss], so that the lookup by
    the upper-cased name finds nothing, while the lookups by the name
    and by its lower-cased form find the command. *)
Lemma get_by_upper_cased_name_can_miss :
  let name := Samples.sharp_s_name in
  let registry :=
    CommandRecordRegistry.register (Samples.EchoCommand name)
      (CommandRecordRegistry.register (Samples.EchoCommand name)
         CommandRecordRegistry.empty) in
  JSString.toUpperCase name = "STRASSE"%string /\
  JSString.toLowerCase (JSString.toUpperCase name) = "strasse"%string /\
  JSString.toLowerCase name = name /\
  CommandRecordRegistry.get (JSString.toUpperCase name) registry = None /\
  CommandRecordRegistry.get (JSString.toLowerCase name) registry
  = Some (Samples.EchoCommand name).
Proof. repeat split. Qed.

(** ** The input parser *)

Section ParserFacts.
Import CLIInputValidator.

Lemma split_without (sep : ascii) (s : string) :
  JSString.has_char sep s = false -> JSString.split sep s = [s].
Proof.
  induction s as [|c s IH]; simpl; [reflexivity|].
  intros H. apply orb_false_iff in H as [Hc Hs].
  rewrite Hc, (IH Hs). reflexivity.
Qed.

Lemma split_at_first (sep : ascii) (k rest : string) :
  JSString.has_char sep k = false ->
  JSString.split sep (k ++ String sep rest) = k :: JSString.split sep rest.
Proof.
  induction k as [|c k IH]; simpl; intros H.
  - now rewrite Ascii.eqb_refl.
  - apply orb_false_iff in H as [Hc Hk].
    rewrite Hc, (IH Hk). reflexivity.
Qed.

(** What the long-option branch stores: [true] without [=], and
    otherwise the first [=]-separated segment of what follows the
    first [=]. *)
Lemma long_option_flag (k : string) (context : CLIContext) :
  JSString.has_char "=" k = false ->
  String.eqb k "output" || String.eqb k "format" || String.eqb k "verbose" = false ->
  long_option ("--" ++ k) context = set_option k (JSBool true) context.
Proof.
  unfold long_option. intros Hk Hr.
  apply orb_false_iff in Hr as [Hr Hv]. simpl JSString.substring_from.
  rewrite (split_without _ _ Hk). simpl. rewrite Hr, Hv. reflexivity.
Qed.

Lemma long_option_value (k v : string) (context : CLIContext) :
  JSString.has_char "=" k = false ->
  String.eqb k "output" || String.eqb k "format" || String.eqb k "verbose" = false ->
  long_option ("--" ++ k ++ "=" ++ v) context =
  set_option k (JSString (hd EmptyString (JSString.split "=" v))) context.
Proof.
  unfold long_option. intros Hk Hr.
  apply orb_false_iff in Hr as [Hr Hv]. simpl JSString.substring_from.
  change (k ++ "=" ++ v)%string with (k ++ String "=" v)%string.
  rewrite (split_at_first _ _ _ Hk).
  destruct (JSString.split "=" v) as [|seg rest] eqn:E.
  - destruct v; simpl in E; [discriminate|].
    destruct (Ascii.eqb a "="); [discriminate|].
    destruct (JSString.split "=" v); discriminate.
  - simpl. rewrite Hr, Hv. reflexivity.
Qed.

(** C2, at the input on which the code departs from it: the token
    [--k=a=b] stores ["a"] under [k], not ["a=b"]; a token without [=]
    stores [true] and [--flag=] stores the empty string, as claimed. *)
Theorem parseArguments_value_stops_at_second_equals :
  JSMap.get "k" (options (parseArguments ["--k=a=b"])) = Some (JSString "a") /\
  JSMap.get "k" (options (parseArguments ["--k=a=b"])) <> Some (JSString "a=b") /\
  JSMap.get "flag" (options (parseArguments ["--flag="])) = Some (JSString "") /\
  JSMap.get "flag" (options (parseArguments ["--flag"])) = Some (JSBool true).
Proof. repeat split; try reflexivity. discriminate. Qed.
End ParserFacts.

(** ** The output formatter *)

Section FormatterFacts.
Import JSString CLIOutputFormatter.
Local Open Scope string_scope.

Lemma startsWith_before_char (p : string) (c : ascii) (a b : string) :
  has_char c p = false ->
  startsWith p (a ++ String c b) = startsWith p a.
Proof.
  revert p. induction a as [|y a IH]; intros [|x p] H; simpl; trivial.
  - simpl in H. apply orb_false_iff in H as [Hx _]. now rewrite Hx.
  - simpl in H. apply orb_false_iff in H as [_ Hp]. now rewrite (IH p Hp).
Qed.

(** A pattern that does not contain [c] cannot lie across an
    occurrence of [c]. *)
Lemma includes_across_char (p : string) (c : ascii) (a b : string) :
  has_char c p = false -> p <> "" ->
  includes p (a ++ String c b) = includes p a || includes p b.
Proof.
  intros Hc Hp. induction a as [|y a IH].
  - destruct p as [|x p]; [congruence|].
    simpl in Hc. apply orb_false_iff in Hc as [Hx _].
    simpl. now rewrite Hx.
  - change (String y a ++ String c b) with (String y (a ++ String c b)).
    cbn [includes]. rewrite IH.
    change (String y (a ++ String c b)) with (String y a ++ String c b).
    rewrite (startsWith_before_char _ _ _ _ Hc).
    now rewrite orb_assoc.
Qed.

Lemma endsWith_refl (s : string) : endsWith s s = true.
Proof. destruct s; simpl; [reflexivity|]. now rewrite Ascii.eqb_refl, String.eqb_refl. Qed.

Lemma endsWith_app (s a b : string) :
  endsWith s b = true -> endsWith s (a ++ b) = true.
Proof.
  intros H. induction a as [|c a IH]; simpl; [exact H|].
  rewrite IH. apply orb_true_r.
Qed.

Lemma append_assoc (a b c : string) : (a ++ b) ++ c = a ++ (b ++ c).
Proof. induction a as [|x a IH]; simpl; [reflexivity | now rewrite IH]. Qed.

Lemma append_empty_r (a : string) : a ++ "" = a.
Proof. induction a as [|x a IH]; simpl; [reflexivity | now rewrite IH]. Qed.

Variable JSON_stringify : JSValue -> string.
Variable toISOString : Z -> string.

Lemma format_failure_shape (result : CommandResult) :
  format_failure result =
    "❌ Error"
    ++ (if truthy_opt (error result) then ": " ++ text_of (error result) else "")
    ++ (if truthy_opt (message result)
        then nl ++ "Message: " ++ text_of (message result) else "").
Proof.
  unfold format_failure.
  destruct (truthy_opt (error result)), (truthy_opt (message result));
    rewrite ?append_assoc, ?append_empty_r; reflexivity.
Qed.

Lemma format_failure_includes (result : CommandResult) :
  includes "Execution time" (text_of (error result)) = false ->
  includes "Execution time" (text_of (message result)) = false ->
  includes "Execution time" (format_failure result) = false.
Proof.
  intros He Hm. rewrite format_failure_shape.
  destruct (truthy_opt (error result)), (truthy_opt (message result)).
  - change (includes "Execution time"
              (text_of (error result) ++ String "010" ("Message: " ++ text_of (message result)))
            = false).
    rewrite includes_across_char by (reflexivity || discriminate).
    rewrite He. exact Hm.
  - change (includes "Execution time" (text_of (error result) ++ "") = false).
    rewrite append_empty_r. exact He.
  - exact Hm.
  - reflexivity.
Qed.

(** C9, as amended. In text mode a failed result is rendered as
    ["❌ Error"], followed by [": "] and the error when the error is a
    non-empty string, followed by a line ["Message: "] with the message
    when the message is a non-empty string.  Nothing about the execution
    time is appended: the output contains ["Execution time"] only if the
    error or the message does.  A successful result ends with
    ["Execution time: {ms}ms"]. *)
Theorem format_text_execution_time (result : CommandResult) :
  (success result = false ->
     format JSON_stringify toISOString result text =
       "❌ Error"
       ++ (if truthy_opt (error result) then ": " ++ text_of (error result) else "")
       ++ (if truthy_opt (message result)
           then nl ++ "Message: " ++ text_of (message result) else "") /\
     startsWith "❌ Error" (format JSON_stringify toISOString result text) = true /\
     (includes "Execution time" (text_of (error result)) = false ->
      includes "Execution time" (text_of (message result)) = false ->
      includes "Execution time" (format JSON_stringify toISOString result text) = false)) /\
  (success result = true ->
     endsWith ("Execution time: " ++ of_Z (executionTimeMs result) ++ "ms")
              (format JSON_stringify toISOString result text) = true).
Proof.
  split; intros Hs; unfold format; rewrite Hs.
  - split; [apply format_failure_shape|]. split.
    + rewrite format_failure_shape. reflexivity.
    + apply format_failure_includes.
  - unfold format_success. cbv zeta.
    apply endsWith_app, (endsWith_app _ nl), (endsWith_app _ nl), endsWith_refl.
Qed.
End FormatterFacts.

Lemma format_text_execution_time_witness :
  (success (Samples.failed (Some "X") None) = false /\
   JSString.includes "Execution time"
     (CLIOutputFormatter.format (fun _ => "null") (fun _ => "1970-01-01T00:00:00.000Z")
        (Samples.failed (Some "X") None) text) = false) /\
  (success (Samples.succeeded (Some "done")) = true /\
   JSString.endsWith "Execution time: 123ms"
     (CLIOutputFormatter.format (fun _ => "null") (fun _ => "1970-01-01T00:00:00.000Z")
        (Samples.succeeded (Some "done")) text) = true).
Proof.
  split; (split; [reflexivity|]).
  - apply (format_text_execution_time (fun _ => "null") (fun _ => "1970-01-01T00:00:00.000Z")
             (Samples.failed (Some "X") None));
      reflexivity.
  - apply (format_text_execution_time (fun _ => "null") (fun _ => "1970-01-01T00:00:00.000Z")
             (Samples.succeeded (Some "done"))).
    reflexivity.
Defined.

(** C9 as stated fails on two inputs: an error that itself mentions the
    execution time is copied into the output, and an error that is
    present but empty adds no [": "] suffix. *)
Lemma format_failure_text_can_mention_execution_time :
  (success (Samples.failed (Some "Execution time exceeded") None) = false /\
   JSString.includes "Execution time"
     (CLIOutputFormatter.format (fun _ => "null") (fun _ => "1970-01-01T00:00:00.000Z")
        (Samples.failed (Some "Execution time exceeded") None) text) = true) /\
  (success (Samples.failed (Some "") None) = false /\
   CLIOutputFormatter.format (fun _ => "null") (fun _ => "1970-01-01T00:00:00.000Z")
     (Samples.failed (Some "") None) text = "❌ Error").
Proof. repeat split. Qed.

(** ** The event emitter *)

Section EmitterFacts.
Context {Env : Type}.
Import CLIEventEmitter.
Implicit Types (listeners : CLIEventEmitter.t Env) (cb : Listener Env)
               (s : JSSet.t Env) (w : World Env).

(** *** Sets of callbacks *)

Lemma has_spec cb s : JSSet.has cb s = true <-> In (listener_ref cb) (map listener_ref s).
Proof.
  unfold JSSet.has. rewrite existsb_exists, in_map_iff. unfold JSSet.same.
  split; intros [x [H1 H2]]; exists x.
  - apply Nat.eqb_eq in H2. auto.
  - rewrite Nat.eqb_eq. auto.
Qed.



Lemma add_NoDup cb s :
  NoDup (map listener_ref s) -> NoDup (map listener_ref (JSSet.add cb s)).
Proof.
  intros Hs. unfold JSSet.add. destruct (JSSet.has cb s) eqn:E; [exact Hs|].
  rewrite map_app. simpl. apply NoDup_app; repeat split; trivial.
  - constructor; [tauto | constructor].
  - intros x Hx [<-|[]]. apply has_spec in Hx. congruence.
Qed.


Lemma delete_NoDup cb s :
  NoDup (map listener_ref s) -> NoDup (map listener_ref (JSSet.delete cb s)).
Proof.
  unfold JSSet.delete. induction s as [|x s IH]; simpl; intros H; [constructor|].
  inversion H as [|? ? Hx Hs]; subst.
  destruct (negb (JSSet.same cb x)); simpl; auto.
  constructor; auto. rewrite in_map_iff in *. intros [y [Hy Hin]].
  apply filter_In in Hin as [Hin _]. eauto.
Qed.


(** *** Delivery *)

Lemma deliver_spec (event : string) (data : EventData) cb w :
  exists w',
    deliver event data cb w = (Normal tt, w') /\
    w_trace w' = w_trace w ++ [CallListener (listener_ref cb)] /\
    w_env w' = snd (listener_call cb data (w_env w)) /\
    w_ticks w' = w_ticks w /\ w_clock w' = w_clock w /\ w_log w' = w_log w.
Proof.
  unfold deliver, Eff.try_catch, Eff.bind, record, Eff.modify, run_env, Eff.zoom.
  simpl. destruct (listener_call cb data (w_env w)) as [[[]|e] env']; simpl;
    eexists; split; try reflexivity; simpl; repeat split.
Qed.

Lemma forEach_deliver (event : string) (data : EventData) s w :
  exists w',
    Eff.forEach (deliver event data) s w = (Normal tt, w') /\
    w_trace w' = w_trace w ++ listener_calls s /\
    w_env w' = run_listeners data s (w_env w) /\
    w_ticks w' = w_ticks w /\ w_clock w' = w_clock w /\ w_log w' = w_log w.
Proof.
  revert w. induction s as [|cb s IH]; intros w; simpl.
  - exists w. rewrite app_nil_r. repeat split.
  - destruct (deliver_spec event data cb w) as (w1 & H1 & Ht & He & Hk & Hc & Hl).
    destruct (IH w1) as (w2 & H2 & Ht2 & He2 & Hk2 & Hc2 & Hl2).
    exists w2. unfold Eff.bind. rewrite H1, H2.
    rewrite Ht2, Ht, He2, He, Hk2, Hk, Hc2, Hc, Hl2, Hl, <- app_assoc.
    repeat split.
Qed.

(** [emit] never throws; it calls the callbacks of the event once each,
    in registration order, whatever each of them does. *)
Lemma emit_spec listeners (event : string) (data : EventData) w :
  exists w',
    emit listeners event data w = (Normal tt, w') /\
    w_trace w' = w_trace w ++ Emit event data :: listener_calls (callbacks event listeners) /\
    w_env w' = run_listeners data (callbacks event listeners) (w_env w) /\
    w_ticks w' = w_ticks w /\ w_clock w' = w_clock w /\ w_log w' = w_log w.
Proof.
  unfold emit, callbacks, JSMap.has, Eff.bind, record, Eff.modify.
  destruct (JSMap.get event listeners) as [s|]; simpl.
  - match goal with |- context [Eff.forEach _ _ ?w0] =>
      destruct (forEach_deliver event data s w0) as (w' & H & Ht & He & Hk & Hc & Hl)
    end.
    exists w'. rewrite H, Ht, He, Hk, Hc, Hl. simpl. rewrite <- app_assoc.
    repeat split.
  - eexists. split; [reflexivity|]. simpl. repeat split.
Qed.

(** *** Registration *)

Lemma callbacks_on (event : string) cb listeners :
  callbacks event (on event cb listeners) = JSSet.add cb (callbacks event listeners).
Proof.
  unfold on, callbacks, JSMap.has.
  destruct (JSMap.get event listeners) as [s|] eqn:E; simpl.
  - rewrite ?E. now rewrite get_set_same.
  - rewrite !get_set_same. reflexivity.
Qed.

Lemma callbacks_on_other (event other : string) cb listeners :
  event <> other ->
  callbacks other (on event cb listeners) = callbacks other listeners.
Proof.
  intros Hne. unfold on, callbacks, JSMap.has.
  destruct (JSMap.get event listeners) as [s|] eqn:E; simpl.
  - rewrite ?E. now rewrite get_set_other.
  - rewrite get_set_same. now rewrite !get_set_other.
Qed.

Lemma callbacks_off (event : string) cb listeners :
  callbacks event (off event cb listeners) = JSSet.delete cb (callbacks event listeners).
Proof.
  unfold off, callbacks, JSMap.has.
  destruct (JSMap.get event listeners) as [s|] eqn:E; simpl.
  - rewrite ?E. now rewrite get_set_same.
  - now rewrite ?E.
Qed.

Lemma callbacks_off_other (event other : string) cb listeners :
  event <> other ->
  callbacks other (off event cb listeners) = callbacks other listeners.
Proof.
  intros Hne. unfold off, callbacks, JSMap.has.
  destruct (JSMap.get event listeners) as [s|] eqn:E; simpl; [|reflexivity].
  now rewrite get_set_other.
Qed.

Lemma wf_empty : wf (@CLIEventEmitter.empty Env).
Proof. intros event. constructor. Qed.

Lemma wf_on (event : string) cb listeners : wf listeners -> wf (on event cb listeners).
Proof.
  intros H other. destruct (string_dec event other) as [<-|Hne].
  - rewrite callbacks_on. apply add_NoDup, H.
  - rewrite callbacks_on_other by assumption. apply H.
Qed.

Lemma wf_off (event : string) cb listeners : wf listeners -> wf (off event cb listeners).
Proof.
  intros H other. destruct (string_dec event other) as [<-|Hne].
  - rewrite callbacks_off. apply delete_NoDup, H.
  - rewrite callbacks_off_other by assumption. apply H.
Qed.



End EmitterFacts.


(** ** The event emitter, with callbacks that reach it *)

Section LiveEmitterFacts.
Context {Env : Type}.
Import LiveEmitter.
Implicit Types (listeners : LiveEmitter.t Env) (callback : Callback Env)
               (slots : Slots Env) (st : State Env).

Lemma live_callbacks_on (event : string) callback listeners :
  callbacks event (on event callback listeners) = add callback (callbacks event listeners).
Proof.
  unfold on, callbacks, JSMap.has.
  destruct (JSMap.get event listeners) as [slots|] eqn:E; simpl.
  - now rewrite ?E, get_set_same.
  - now rewrite !get_set_same.
Qed.

Lemma live_callbacks_off (event : string) callback listeners :
  callbacks event (off event callback listeners)
  = delete callback (callbacks event listeners).
Proof.
  unfold off, callbacks, JSMap.has.
  destruct (JSMap.get event listeners) as [slots|] eqn:E; simpl.
  - now rewrite ?E, get_set_same.
  - now rewrite E.
Qed.

Lemma live_has_on (event other : string) callback listeners :
  JSMap.has event (on other callback listeners) = true <->
  event = other \/ JSMap.has event listeners = true.
Proof.
  assert (Hset : forall (slots : Slots Env) l,
            JSMap.has event (JSMap.set other slots l) = true <->
            event = other \/ JSMap.has event l = true).
  { intros slots l. unfold JSMap.has.
    destruct (String.eqb other event) eqn:E.
    - apply String.eqb_eq in E. subst other. rewrite get_set_same. intuition.
    - apply String.eqb_neq in E. rewrite (get_set_other other event) by exact E.
      intuition congruence. }
  unfold on.
  destruct (JSMap.has other listeners) eqn:Eh; simpl.
  - unfold JSMap.has in Eh.
    destruct (JSMap.get other listeners) as [slots|] eqn:E; [|discriminate].
    rewrite Hset. intuition.
  - rewrite get_set_same, !Hset. intuition.
Qed.

Lemma skipn_cons {A : Type} (index : nat) (items : list A) (x : A) (rest : list A) :
  skipn index items = x :: rest ->
  nth_error items index = Some x /\ skipn (S index) items = rest.
Proof.
  revert items. induction index as [|index IH]; intros [|y items]; simpl; try discriminate.
  - intros H. injection H as -> ->. auto.
  - intros H. destruct (IH items H) as [H1 H2]. split; [exact H1|].
    destruct items; [destruct index; discriminate | exact H2].
Qed.

Lemma skipn_none {A : Type} (index : nat) (items : list A) :
  skipn index items = [] -> nth_error items index = None.
Proof.
  revert items. induction index as [|index IH]; intros [|y items]; simpl;
    try discriminate; auto.
Qed.

Lemma run_quiet (fuel : nat) (script : Script Env) st :
  quiet script = true ->
  run (S fuel) script st
  = Some (fst (ending script (w_env (st_world st))),
          with_env (snd (ending script (w_env (st_world st)))) st).
Proof. destruct script; simpl; intros H; try discriminate; reflexivity. Qed.

(** Over callbacks that do not call the emitter, [forEach] ends, leaves
    the listeners as they are and calls what the [Set] holds, in order. *)
Lemma forEach_quiet (event : string) (data : EventData) (rest : Slots Env) :
  forall (index : nat) st (fuel : nat),
    skipn index (callbacks event (st_listeners st)) = rest ->
    (forall callback, In (Some callback) rest ->
       forall env, quiet (callback_code callback data env) = true) ->
    length rest < fuel ->
    exists st',
      forEach fuel event data index st = Some (Normal tt, st') /\
      st_listeners st' = st_listeners st /\
      w_trace (st_world st') = w_trace (st_world st) ++ listener_calls rest.
Proof.
  induction rest as [|slot rest IH]; intros index st fuel Hskip Hquiet Hfuel.
  - destruct fuel as [|fuel]; [inversion Hfuel|].
    exists st. simpl. rewrite (skipn_none _ _ Hskip).
    unfold listener_calls. simpl. rewrite app_nil_r. auto.
  - destruct fuel as [|fuel]; [inversion Hfuel|].
    simpl in Hfuel. apply PeanoNat.lt_S_n in Hfuel.
    destruct (skipn_cons _ _ _ _ Hskip) as [Hnth Hnext].
    cbn [forEach]. rewrite Hnth.
    destruct slot as [callback|].
    + destruct fuel as [|fuel']; [inversion Hfuel|].
      rewrite run_quiet by (apply Hquiet; now left).
      set (st1 := note (CallListener (callback_ref callback)) st).
      destruct (ending (callback_code callback data (w_env (st_world st1)))
                       (w_env (st_world st1))) as [[[]|error] env'] eqn:Eend;
        cbn [fst snd].
      * destruct (IH (S index) (with_env env' st1) (S fuel')) as (st' & H & Hl & Ht);
          [exact Hnext | intros; apply Hquiet; now right | exact Hfuel |].
        exists st'. split; [exact H|]. split; [exact Hl|].
        rewrite Ht. unfold listener_calls. simpl. now rewrite <- app_assoc.
      * destruct (IH (S index) (report event error (with_env env' st1)) (S fuel'))
          as (st' & H & Hl & Ht);
          [exact Hnext | intros; apply Hquiet; now right | exact Hfuel |].
        exists st'. split; [exact H|]. split; [exact Hl|].
        rewrite Ht. unfold listener_calls. simpl. now rewrite <- app_assoc.
    + destruct (IH (S index) st fuel) as (st' & H & Hl & Ht);
        [exact Hnext | intros; apply Hquiet; now right | exact Hfuel |].
      exists st'. auto.
Qed.

Lemma emit_quiet (event : string) (data : EventData) st (fuel : nat) :
  (forall callback, In (Some callback) (callbacks event (st_listeners st)) ->
     forall env, quiet (callback_code callback data env) = true) ->
  length (callbacks event (st_listeners st)) + 2 <= fuel ->
  exists st',
    emit fuel event data st = Some (Normal tt, st') /\
    st_listeners st' = st_listeners st /\
    w_trace (st_world st')
    = w_trace (st_world st)
      ++ Emit event data :: listener_calls (callbacks event (st_listeners st)).
Proof.
  intros Hquiet Hfuel.
  destruct fuel as [|fuel]; [lia|]. cbn [emit].
  set (st1 := note (Emit event data) st).
  assert (Hsame : st_listeners st1 = st_listeners st) by reflexivity.
  unfold JSMap.has. rewrite Hsame.
  destruct (JSMap.get event (st_listeners st)) as [slots|] eqn:E; simpl.
  - destruct (forEach_quiet event data slots 0 st1 fuel) as (st' & H & Hl & Ht).
    + simpl. unfold callbacks. now rewrite E.
    + unfold callbacks in Hquiet. now rewrite E in Hquiet.
    + unfold callbacks in Hfuel. rewrite E in Hfuel. lia.
    + exists st'. split; [exact H|]. split; [exact Hl|].
      rewrite Ht. unfold callbacks. rewrite E. simpl. now rewrite <- app_assoc.
  - exists st1. unfold callbacks. rewrite E. auto.
Qed.

(** *** Agreement with the emitter whose listeners are fixed

    For callbacks that do not call the emitter, the emission is the one
    of [CLIEventEmitter.emit] over the callbacks the [Set]s hold: this
    is the emitter the dispatcher and the plugin manager are given. *)

Lemma with_world_same st : with_world (st_world st) st = st.
Proof. destruct st; reflexivity. Qed.

Lemma get_as_emitter (event : string) listeners :
  JSMap.get event (as_emitter listeners)
  = option_map (fun slots => map as_listener (held slots)) (JSMap.get event listeners).
Proof.
  unfold as_emitter. induction listeners as [|[k slots] listeners IH]; simpl;
    [reflexivity|].
  destruct (String.eqb event k); [reflexivity | exact IH].
Qed.

Lemma forEach_agrees (event : string) (data : EventData) (rest : Slots Env) :
  forall (index : nat) st (fuel : nat),
    skipn index (callbacks event (st_listeners st)) = rest ->
    (forall callback, In (Some callback) rest ->
       forall env, quiet (callback_code callback data env) = true) ->
    length rest < fuel ->
    exists w',
      Eff.forEach (CLIEventEmitter.deliver event data) (map as_listener (held rest))
        (st_world st) = (Normal tt, w') /\
      forEach fuel event data index st = Some (Normal tt, with_world w' st).
Proof.
  induction rest as [|slot rest IH]; intros index st fuel Hskip Hquiet Hfuel.
  - destruct fuel as [|fuel]; [inversion Hfuel|].
    exists (st_world st). simpl. rewrite (skipn_none _ _ Hskip).
    now rewrite with_world_same.
  - destruct fuel as [|fuel]; [inversion Hfuel|].
    simpl in Hfuel. apply PeanoNat.lt_S_n in Hfuel.
    destruct (skipn_cons _ _ _ _ Hskip) as [Hnth Hnext].
    cbn [forEach]. rewrite Hnth.
    destruct slot as [callback|].
    + destruct fuel as [|fuel']; [inversion Hfuel|].
      rewrite run_quiet by (apply Hquiet; now left).
      pose proof (Hquiet callback (or_introl eq_refl) (w_env (st_world st))) as Hq.
      cbn [held flat_map map app Eff.forEach].
      unfold Eff.bind at 1.
      unfold CLIEventEmitter.deliver, Eff.try_catch, Eff.bind, record, Eff.modify,
        run_env, Eff.zoom, console_error. cbn [as_listener listener_call listener_ref].
      cbn [note with_world st_world record Eff.modify snd w_env].
      destruct (callback_code callback data (w_env (st_world st)))
        as [env'|error env'| | |] eqn:Ecode; try discriminate Hq;
        cbn [ending fst snd].
      * match goal with |- context [forEach _ _ _ _ ?st1] =>
          destruct (IH (S index) st1 (S fuel')) as (w' & H & Hrun);
            [exact Hnext | intros; apply Hquiet; now right | exact Hfuel |]
        end.
        exists w'. split; [exact H | exact Hrun].
      * match goal with |- context [forEach _ _ _ _ ?st1] =>
          destruct (IH (S index) st1 (S fuel')) as (w' & H & Hrun);
            [exact Hnext | intros; apply Hquiet; now right | exact Hfuel |]
        end.
        exists w'. split; [exact H | exact Hrun].
    + destruct (IH (S index) st fuel) as (w' & H & Hrun);
        [exact Hnext | intros; apply Hquiet; now right | exact Hfuel |].
      exists w'. auto.
Qed.

Lemma emit_agrees_when_quiet (event : string) (data : EventData) st (fuel : nat) :
  (forall callback, In (Some callback) (callbacks event (st_listeners st)) ->
     forall env, quiet (callback_code callback data env) = true) ->
  length (callbacks event (st_listeners st)) + 2 <= fuel ->
  exists w',
    CLIEventEmitter.emit (as_emitter (st_listeners st)) event data (st_world st)
    = (Normal tt, w') /\
    emit fuel event data st = Some (Normal tt, with_world w' st).
Proof.
  intros Hquiet Hfuel.
  destruct fuel as [|fuel]; [lia|]. cbn [emit].
  unfold CLIEventEmitter.emit, Eff.bind, record, Eff.modify.
  set (st1 := note (Emit event data) st).
  assert (Hsame : st_listeners st1 = st_listeners st) by reflexivity.
  unfold JSMap.has. rewrite Hsame, get_as_emitter.
  destruct (JSMap.get event (st_listeners st)) as [slots|] eqn:E; simpl.
  - destruct (forEach_agrees event data slots 0 st1 fuel) as (w' & H & Hrun).
    + simpl. unfold callbacks. now rewrite E.
    + unfold callbacks in Hquiet. now rewrite E in Hquiet.
    + unfold callbacks in Hfuel. rewrite E in Hfuel. lia.
    + exists w'. split; [exact H | exact Hrun].
  - eexists. split; reflexivity.
Qed.

(** C6, as amended. When the callbacks of the event do not call the
    emitter while they run, [emit] returns normally, leaves the
    listeners as they are and calls every callback registered for the
    event once, in registration order, whether or not some of them
    throw.  In particular, when two listeners are registered and the
    first throws without having called the emitter, the second is still
    called exactly once: the trace of the emission is the first then the
    second, the environment is the one the second leaves after the
    first, and the failure of the first went to the console. *)
Theorem emit_isolates_throwing_listener st (event : string) (data : EventData) :
  ((forall callback, In (Some callback) (callbacks event (st_listeners st)) ->
      forall env, quiet (callback_code callback data env) = true) ->
   forall fuel : nat,
     length (callbacks event (st_listeners st)) + 2 <= fuel ->
     exists st',
       emit fuel event data st = Some (Normal tt, st') /\
       st_listeners st' = st_listeners st /\
       w_trace (st_world st')
       = w_trace (st_world st)
         ++ Emit event data :: listener_calls (callbacks event (st_listeners st))) /\
  forall (first second : Callback Env) (error : Thrown) (env1 : Env),
    callbacks event (st_listeners st) = [] ->
    callback_ref first <> callback_ref second ->
    callback_code first data (w_env (st_world st)) = Raise error env1 ->
    quiet (callback_code second data env1) = true ->
    let registered := on event second (on event first (st_listeners st)) in
    callbacks event registered = [Some first; Some second] /\
    forall fuel : nat,
      4 <= fuel ->
      exists st' calls,
        emit fuel event data (with_listeners registered st) = Some (Normal tt, st') /\
        st_listeners st' = registered /\
        w_trace (st_world st') = w_trace (st_world st) ++ calls /\
        calls = [Emit event data;
                 CallListener (callback_ref first);
                 CallListener (callback_ref second)] /\
        invocations (callback_ref second) calls = 1 /\
        w_env (st_world st') = snd (ending (callback_code second data env1) env1) /\
        In (("Error in event listener for '" ++ event ++ "':")%string, error)
           (w_console (st_world st')).
Proof.
  split; [intros Hquiet fuel Hfuel; now apply emit_quiet|].
  intros first second error env1 Hnone Hne Hthrow Hquiet registered.
  assert (Hcbs : callbacks event registered = [Some first; Some second]).
  { unfold registered. rewrite !live_callbacks_on, Hnone.
    unfold add. simpl.
    apply not_eq_sym in Hne. apply Nat.eqb_neq in Hne. now rewrite Hne. }
  split; [exact Hcbs|].
  intros fuel Hfuel.
  destruct fuel as [|[|[|[|fuel]]]]; try lia.
  assert (Hget : JSMap.get event registered = Some [Some first; Some second]).
  { unfold callbacks in Hcbs.
    destruct (JSMap.get event registered) as [slots|]; [now subst | discriminate]. }
  clearbody registered.
  destruct (callback_code second data env1) as [env2|error2 env2| | |] eqn:E2;
    try discriminate Hquiet.
  all: cbn [emit]; unfold JSMap.has; simpl; rewrite Hget; simpl.
  all: rewrite Hcbs; simpl; rewrite Hthrow; simpl.
  all: rewrite Hcbs; simpl; rewrite E2; simpl.
  all: rewrite Hcbs; simpl.
  all: do 2 eexists; split; [reflexivity|]; simpl.
  all: rewrite <- ?app_assoc; simpl.
  all: repeat split.
  all: try (unfold invocations; simpl;
            apply Nat.eqb_neq in Hne; now rewrite Hne, Nat.eqb_refl).
  all: rewrite ?in_app_iff; simpl; auto.
Qed.
End LiveEmitterFacts.

Lemma emit_isolates_throwing_listener_witness :
  (exists st',
     LiveEmitter.emit 4 "startup" (Payload JSNull) (MoreSamples.state_of MoreSamples.live0)
     = Some (Normal tt, st') /\
     LiveEmitter.st_listeners st' = MoreSamples.live0 /\
     w_trace (LiveEmitter.st_world st')
     = [Emit "startup" (Payload JSNull); CallListener 1; CallListener 2]) /\
  exists st' calls,
    LiveEmitter.emit 4 "startup" (Payload JSNull) (MoreSamples.state_of MoreSamples.live0)
    = Some (Normal tt, st') /\
    LiveEmitter.st_listeners st' = MoreSamples.live0 /\
    w_trace (LiveEmitter.st_world st') = calls /\
    calls = [Emit "startup" (Payload JSNull); CallListener 1; CallListener 2] /\
    invocations 2 calls = 1 /\
    w_env (LiveEmitter.st_world st') = 1 /\
    In ("Error in event listener for 'startup':"%string, ErrorObject Samples.boom)
       (w_console (LiveEmitter.st_world st')).
Proof.
  split.
  - apply (proj1 (emit_isolates_throwing_listener
                    (MoreSamples.state_of MoreSamples.live0) "startup" (Payload JSNull))).
    + intros callback [H|[H|[]]] env; injection H as <-; reflexivity.
    + simpl. lia.
  - apply (proj2 (proj2 (emit_isolates_throwing_listener
                           (MoreSamples.state_of LiveEmitter.empty)
                           "startup" (Payload JSNull))
                        (MoreSamples.throwing_callback 1) (MoreSamples.counting_callback 2)
                        (ErrorObject Samples.boom) 0
                        eq_refl ltac:(discriminate) eq_refl eq_refl)
                 4).
    lia.
Defined.

(** C6 as stated fails when the first listener holds the emitter: it
    removes the second listener from the event and then throws.  [emit]
    returns normally and reports the failure, but [forEach] walks the
    [Set] as it is after the removal, and the second listener is not
    called. *)
Lemma emit_skips_listener_removed_by_the_first :
  let first := MoreSamples.silencing_callback 1 "startup" (MoreSamples.counting_callback 2) in
  let second := MoreSamples.counting_callback 2 in
  LiveEmitter.callbacks "startup" MoreSamples.live1 = [Some first; Some second] /\
  LiveEmitter.callback_code first (Payload JSNull) 0
  = LiveEmitter.CallOff "startup" second (LiveEmitter.Raise Samples.boom 0) /\
  exists st',
    LiveEmitter.emit 4 "startup" (Payload JSNull) (MoreSamples.state_of MoreSamples.live1)
    = Some (Normal tt, st') /\
    LiveEmitter.callbacks "startup" (LiveEmitter.st_listeners st') = [Some first; None] /\
    w_trace (LiveEmitter.st_world st')
    = [Emit "startup" (Payload JSNull); CallListener 1] /\
    invocations 2 (w_trace (LiveEmitter.st_world st')) = 0 /\
    w_env (LiveEmitter.st_world st') = 0 /\
    w_console (LiveEmitter.st_world st')
    = [("Error in event listener for 'startup':"%string, ErrorObject Samples.boom)].
Proof.
  split; [reflexivity|]. split; [reflexivity|].
  eexists. split; [reflexivity|]. repeat split.
Qed.

(** The same with any more fuel: the emission has ended. *)
Lemma emit_skips_listener_removed_by_the_first_whatever_the_fuel (fuel : nat) :
  4 <= fuel ->
  exists st',
    LiveEmitter.emit fuel "startup" (Payload JSNull)
      (MoreSamples.state_of MoreSamples.live1) = Some (Normal tt, st') /\
    w_trace (LiveEmitter.st_world st')
    = [Emit "startup" (Payload JSNull); CallListener 1].
Proof.
  intros Hfuel. destruct fuel as [|[|[|[|fuel]]]]; try lia.
  eexists. split; reflexivity.
Qed.

(** ** The dispatcher *)

Section EngineFacts.
Context {Env : Type}.
Import StandardCLIEngine.
Implicit Types (commandRegistry : CommandRecordRegistry.t Env)
               (eventEmitter : CLIEventEmitter.t Env)
               (context : CLIContext) (w : World Env).

Ltac run :=
  unfold call_validate, call_execute, CLIErrorHandler.handle, logger, record,
    new_Date, Date_now, run_env, Eff.zoom, Eff.modify, Eff.try_catch, Eff.bind,
    Eff.throw, Eff.ret; simpl.

(** C1. When the command found under the name reports an invalid
    context, [executeCommand] returns a failure whose error is
    ["Validation failed"] and whose message is the errors joined by
    ["; "].  The only call made into the command is the one to
    [validate]: the trace has no call to [execute], and the environment
    is the one [validate] left. *)
Theorem executeCommand_validation_failed
    commandRegistry eventEmitter (commandName : string) context w
    (command : Command Env) (errs : list string) (env1 : Env) :
  CommandRecordRegistry.get commandName commandRegistry = Some command ->
  cmd_validate command context (w_env w)
    = (Normal {| valid := false; errors := errs |}, env1) ->
  exists result w',
    executeCommand commandRegistry eventEmitter commandName context w
      = (Normal result, w') /\
    success result = false /\
    error result = Some "Validation failed"%string /\
    message result = Some (JSString.join "; " errs) /\
    w_trace w' = w_trace w ++ [CallValidate (cmd_name command)] /\
    (forall name, ~ In (CallExecute name) (w_trace w) ->
                  ~ In (CallExecute name) (w_trace w')) /\
    w_env w' = env1.
Proof.
  intros Hget Hval. unfold executeCommand. rewrite Hget. run. rewrite Hval. simpl.
  do 2 eexists. split; [reflexivity|]. simpl. repeat split.
  intros name Hn Hin. apply in_app_iff in Hin as [Hin|[Hin|[]]]; [tauto | discriminate].
Qed.

(** C3. An unknown name given to [executeCommand], and a token list
    without positional argument given to [execute], both end normally
    with a failure whose error names the condition. *)
Theorem command_not_found_is_a_failure_result
    commandRegistry eventEmitter w :
  (forall (commandName : string) context,
     CommandRecordRegistry.get commandName commandRegistry = None ->
     exists result w',
       executeCommand commandRegistry eventEmitter commandName context w
         = (Normal result, w') /\
       success result = false /\
       error result = Some ("Command not found: '" ++ commandName ++ "'")%string /\
       truthy_opt (error result) = true) /\
  (forall args : list string,
     arguments (CLIInputValidator.parseArguments args) = [] ->
     exists result w',
       execute commandRegistry eventEmitter args w = (Normal result, w') /\
       success result = false /\
       error result = Some "Command not found: 'No command specified'"%string /\
       truthy_opt (error result) = true).
Proof.
  split.
  - intros commandName context Hget. unfold executeCommand. rewrite Hget. run.
    match goal with |- context [CLIEventEmitter.emit ?l ?e ?d ?w0] =>
      destruct (emit_spec l e d w0) as (w' & H & _) end.
    rewrite H. do 2 eexists. split; [reflexivity|]. simpl. repeat split.
  - intros args Hargs. unfold execute. rewrite Hargs. run.
    match goal with |- context [CLIEventEmitter.emit ?l ?e ?d ?w0] =>
      destruct (emit_spec l e d w0) as (w' & H & _) end.
    rewrite H. do 2 eexists. split; [reflexivity|]. simpl. repeat split.
Qed.

(** C4. When the command found under the name accepts the context and
    its [execute] returns a result, [executeCommand] returns that result
    with [executionTimeMs] replaced by the time the dispatcher measured:
    the reading of the clock taken after [execute] minus the reading
    taken on entry.  The other fields are the command's. *)
Theorem executeCommand_overwrites_executionTimeMs
    commandRegistry eventEmitter (commandName : string) context w
    (command : Command Env) (validation : ValidationOutcome)
    (returned : CommandResult) (env1 env2 : Env) :
  CommandRecordRegistry.get commandName commandRegistry = Some command ->
  cmd_validate command context (w_env w) = (Normal validation, env1) ->
  valid validation = true ->
  cmd_execute command context env1 = (Normal returned, env2) ->
  exists result w',
    executeCommand commandRegistry eventEmitter commandName context w
      = (Normal result, w') /\
    executionTimeMs result
      = (w_clock w (S (w_ticks w)) - w_clock w (w_ticks w))%Z /\
    success result = success returned /\
    data result = data returned /\
    error result = error returned /\
    message result = message returned /\
    timestamp result = timestamp returned.
Proof.
  intros Hget Hval Hvalid Hexec. unfold executeCommand. rewrite Hget. run.
  rewrite Hval. simpl. rewrite Hvalid. simpl. rewrite Hexec. simpl.
  match goal with |- context [CLIEventEmitter.emit ?l ?e ?d ?w0] =>
    destruct (emit_spec l e d w0) as (w' & H & _) end.
  rewrite H. do 2 eexists. split; [reflexivity|]. simpl. repeat split.
Qed.
End EngineFacts.

Lemma executeCommand_validation_failed_witness :
  exists result w',
    StandardCLIEngine.executeCommand Samples.registry0 CLIEventEmitter.empty
      "echo" (Samples.context0 []) Samples.world0 = (Normal result, w') /\
    success result = false /\
    error result = Some "Validation failed"%string /\
    message result = Some "Message is required"%string /\
    w_trace w' = [CallValidate "echo"] /\
    (forall name, ~ In (CallExecute name) (w_trace Samples.world0) ->
                  ~ In (CallExecute name) (w_trace w')) /\
    w_env w' = 0.
Proof.
  apply (executeCommand_validation_failed
           Samples.registry0 CLIEventEmitter.empty "echo" (Samples.context0 [])
           Samples.world0 (Samples.EchoCommand "echo") ["Message is required"%string] 0).
  - reflexivity.
  - reflexivity.
Defined.

Lemma command_not_found_is_a_failure_result_witness :
  (exists result w',
     StandardCLIEngine.executeCommand Samples.registry0 CLIEventEmitter.empty
       "doesnotexist" (Samples.context0 []) Samples.world0 = (Normal result, w') /\
     success result = false /\
     error result = Some "Command not found: 'doesnotexist'"%string /\
     truthy_opt (error result) = true) /\
  (exists result w',
     StandardCLIEngine.execute Samples.registry0 CLIEventEmitter.empty
       ["--verbose"%string; "-j"%string] Samples.world0 = (Normal result, w') /\
     success result = false /\
     error result = Some "Command not found: 'No command specified'"%string /\
     truthy_opt (error result) = true).
Proof.
  split.
  - apply (proj1 (command_not_found_is_a_failure_result
                    Samples.registry0 CLIEventEmitter.empty Samples.world0)
                 "doesnotexist"%string (Samples.context0 [])).
    reflexivity.
  - apply (proj2 (command_not_found_is_a_failure_result
                    Samples.registry0 CLIEventEmitter.empty Samples.world0)
                 ["--verbose"%string; "-j"%string]).
    reflexivity.
Defined.

Lemma executeCommand_overwrites_executionTimeMs_witness :
  exists result w',
    StandardCLIEngine.executeCommand Samples.registry0 CLIEventEmitter.empty
      "ECHO" (Samples.context0 ["hello"%string; "world"%string]) Samples.world0
      = (Normal result, w') /\
    executionTimeMs result = 7%Z /\
    success result = true /\
    data result = JSObject [("message"%string, JSString "hello world")] /\
    error result = None /\
    message result = Some "Echo successful"%string /\
    timestamp result = 0%Z.
Proof.
  apply (executeCommand_overwrites_executionTimeMs
           Samples.registry0 CLIEventEmitter.empty "ECHO"
           (Samples.context0 ["hello"%string; "world"%string]) Samples.world0
           (Samples.EchoCommand "echo") {| valid := true; errors := [] |}
           {| success := true;
              data := JSObject [("message"%string, JSString "hello world")];
              error := None;
              message := Some "Echo successful"%string;
              timestamp := 0;
              executionTimeMs := 0 |} 0 1);
    reflexivity.
Defined.
(** ** The plugin manager *)

Section PluginFacts.
Context {Env : Type}.
Import PluginManager.
Implicit Types (plugin : Plugin Env) (s : State Env).

Ltac run :=
  unfold loadPlugin, call_initialize, update_loaded, emit, in_world, logger, record,
    scope_of, set_scope, Eff.zoom, Eff.modify, Eff.try_catch, Eff.bind, Eff.throw, Eff.ret; simpl.

(** C7, as amended. When [initialize] throws, [loadPlugin] throws the
    same error, emits nothing and leaves the map of loaded plugins as it
    was: [isPluginLoaded(name)] is false afterwards when it was false
    before.  When [initialize] returns, the plugin is recorded under the
    name and [plugin:loaded] is emitted. *)
Theorem loadPlugin_records_on_success_only (name : string) plugin s :
  (forall (error : JSError) (scope' : PluginScope Env),
     plugin_initialize plugin (scope_of s) = (Throw error, scope') ->
     exists s',
       loadPlugin name plugin s = (Throw error, s') /\
       loadedPlugins (fst s') = loadedPlugins (fst s) /\
       isPluginLoaded name (fst s') = isPluginLoaded name (fst s) /\
       (isPluginLoaded name (fst s) = false -> isPluginLoaded name (fst s') = false) /\
       w_trace (snd s') = w_trace (snd s) ++ [CallInitialize]) /\
  (forall scope' : PluginScope Env,
     plugin_initialize plugin (scope_of s) = (Normal tt, scope') ->
     exists s',
       loadPlugin name plugin s = (Normal tt, s') /\
       JSMap.get name (loadedPlugins (fst s')) = Some plugin /\
       isPluginLoaded name (fst s') = true /\
       w_trace (snd s') =
         w_trace (snd s)
         ++ CallInitialize :: Emit "plugin:loaded" (PluginEvent name)
            :: CLIEventEmitter.listener_calls
                 (CLIEventEmitter.callbacks "plugin:loaded" (eventEmitter (fst s)))).
Proof.
  destruct s as [pm w]. split.
  - intros error scope' Hinit. run. unfold scope_of in Hinit. simpl in Hinit.
    rewrite Hinit. simpl. eexists. split; [reflexivity|]. simpl.
    repeat split. trivial.
  - intros scope' Hinit. run. unfold scope_of in Hinit. simpl in Hinit.
    rewrite Hinit. simpl.
    match goal with |- context [CLIEventEmitter.emit ?l ?e ?d ?w0] =>
      destruct (emit_spec l e d w0) as (w' & H & Ht & _) end.
    rewrite H. simpl. eexists. split; [reflexivity|]. simpl.
    unfold isPluginLoaded, JSMap.has. simpl. rewrite get_set_same.
    repeat split. rewrite Ht. simpl. now rewrite <- app_assoc.
Qed.
End PluginFacts.

Lemma loadPlugin_records_on_success_only_witness :
  (exists s',
     PluginManager.loadPlugin "images" Samples.failing_plugin
       (Samples.manager0, Samples.world0) = (Throw Samples.boom, s') /\
     PluginManager.isPluginLoaded "images" (fst s') = false /\
     w_trace (snd s') = [CallInitialize]) /\
  (exists s',
     PluginManager.loadPlugin "echo" Samples.echo_plugin
       (Samples.manager0, Samples.world0) = (Normal tt, s') /\
     PluginManager.isPluginLoaded "echo" (fst s') = true /\
     w_trace (snd s') = [CallInitialize; Emit "plugin:loaded" (PluginEvent "echo")]).
Proof.
  split.
  - destruct (proj1 (loadPlugin_records_on_success_only
                       "images" Samples.failing_plugin (Samples.manager0, Samples.world0))
                    Samples.boom (CommandRecordRegistry.empty, 0) eq_refl)
      as (s' & Hrun & _ & _ & Hno & Htrace).
    exists s'. split; [exact Hrun|]. split; [apply Hno; reflexivity | exact Htrace].
  - destruct (proj2 (loadPlugin_records_on_success_only
                       "echo" Samples.echo_plugin (Samples.manager0, Samples.world0))
                    (Samples.registry0, 0) eq_refl)
      as (s' & Hrun & _ & Hyes & Htrace).
    exists s'. split; [exact Hrun|]. split; [exact Hyes | exact Htrace].
Defined.

(** C7 as stated fails when another plugin is already loaded under the
    name: the failed load leaves that record, so the name is still
    loaded. *)
Lemma loadPlugin_failure_keeps_earlier_record :
  fst (PluginManager.loadPlugin "images" Samples.failing_plugin Samples.loaded0)
    = Throw Samples.boom /\
  PluginManager.isPluginLoaded "images"
    (fst (snd (PluginManager.loadPlugin "images" Samples.failing_plugin Samples.loaded0)))
    = true.
Proof. split; reflexivity. Qed.
(** ** The agent adapter *)

Section RegistryInvariant.
Context {Env : Type}.
Import CommandRecordRegistry.
Implicit Types (commands : CommandRecordRegistry.t Env) (command : Command Env).

Lemma wf_empty_registry : wf (@CommandRecordRegistry.empty Env).
Proof. split; constructor. Qed.

Lemma keys_set_present {V : Type} (k : string) (v v0 : V) (m : JSMap.t V) :
  JSMap.get k m = Some v0 -> JSMap.keys (JSMap.set k v m) = JSMap.keys m.
Proof.
  induction m as [|[k' v'] m IH]; simpl; [discriminate|].
  destruct (String.eqb k k') eqn:E; simpl.
  - apply String.eqb_eq in E. now subst.
  - intros H. now rewrite IH.
Qed.

Lemma wf_register command commands : wf commands -> wf (register command commands).
Proof.
  intros [Hnd Hall]. unfold register.
  set (k := JSString.toLowerCase (cmd_name command)).
  split.
  - destruct (JSMap.get k commands) as [c0|] eqn:E.
    + now rewrite (keys_set_present _ _ _ _ E).
    + rewrite (set_fresh _ _ _ E). unfold JSMap.keys. rewrite map_app. simpl.
      apply NoDup_app; repeat split; trivial.
      * constructor; [tauto | constructor].
      * intros x Hx [<-|[]]. now apply get_none_not_key in E.
  - clear Hnd. induction commands as [|[k' c'] commands IH]; simpl.
    + repeat constructor.
    + inversion Hall; subst.
      destruct (String.eqb k k'); constructor; auto.
Qed.

(** In a well-formed registry the commands have distinct names. *)
Lemma wf_names_distinct commands :
  wf commands -> NoDup (map (@cmd_name Env) (getAll commands)).
Proof.
  intros [Hnd Hall]. unfold getAll, JSMap.values.
  apply (NoDup_map_inv JSString.toLowerCase).
  rewrite !map_map.
  replace (map (fun kv => JSString.toLowerCase (cmd_name (snd kv))) commands)
    with (JSMap.keys commands); [exact Hnd|].
  unfold JSMap.keys. apply map_ext_in. intros kv Hin.
  rewrite Forall_forall in Hall. now apply Hall.
Qed.

Lemma exists_register command commands :
  exists_ (cmd_name command) (register command commands) = true.
Proof. unfold exists_, register, JSMap.has. now rewrite get_set_same. Qed.

Lemma exists_register_mono (name : string) command commands :
  exists_ name commands = true -> exists_ name (register command commands) = true.
Proof.
  unfold exists_, register, JSMap.has.
  destruct (string_dec (JSString.toLowerCase (cmd_name command))
                       (JSString.toLowerCase name)) as [->|Hne].
  - now rewrite get_set_same.
  - now rewrite get_set_other.
Qed.
End RegistryInvariant.

Section AgentFacts.
Context {Env : Type}.
Import ProgrammaticCLIAgent.
Implicit Types (commandRegistry : CommandRecordRegistry.t Env)
               (command : Command Env).

Lemma build_tools (commands : list (Command Env)) (acc : JSMap.t (AgentTool Env)) :
  NoDup (map (@cmd_name Env) commands) ->
  (forall command, In command commands -> JSMap.get (cmd_name command) acc = None) ->
  fold_left (fun tools command => JSMap.set (cmd_name command) (tool_of command) tools)
            commands acc
  = acc ++ map (fun command => (cmd_name command, tool_of command)) commands.
Proof.
  revert acc. induction commands as [|c commands IH]; intros acc Hnd Hfresh; simpl.
  - now rewrite app_nil_r.
  - inversion Hnd as [|? ? Hc Hrest]; subst.
    rewrite (set_fresh _ _ _ (Hfresh c (or_introl eq_refl))).
    rewrite IH; trivial.
    + now rewrite <- app_assoc.
    + intros c' Hin. apply get_none_not_key.
      unfold JSMap.keys. rewrite map_app, in_app_iff. simpl.
      intros [Hk|[Hk|[]]].
      * apply get_none_not_key in Hk; [exact Hk | apply Hfresh; now right].
      * apply Hc. rewrite Hk. now apply in_map.
Qed.

Lemma tools_of_new commandRegistry :
  CommandRecordRegistry.wf commandRegistry ->
  tools (new commandRegistry)
  = map (fun command => (cmd_name command, tool_of command))
        (CommandRecordRegistry.getAll commandRegistry).
Proof.
  intros Hwf. unfold new, buildToolsFromCommands. simpl.
  rewrite build_tools; trivial. now apply wf_names_distinct.
Qed.

Lemma agent_after_register_all (later : list (Command Env)) (s : System Env) :
  sys_agent (register_all later s) = sys_agent s.
Proof.
  unfold register_all. revert s.
  induction later as [|c later IH]; intros s; simpl; [reflexivity|].
  now rewrite IH.
Qed.

Lemma registry_after_register_all (later : list (Command Env)) (s : System Env) command :
  In command later ->
  CommandRecordRegistry.exists_ (cmd_name command) (sys_registry (register_all later s)) = true.
Proof.
  unfold register_all.
  assert (Hmono : forall l (s0 : System Env) n,
             CommandRecordRegistry.exists_ n (sys_registry s0) = true ->
             CommandRecordRegistry.exists_ n
               (sys_registry (fold_left (fun s c => register c s) l s0)) = true).
  { induction l as [|c l IH]; intros s0 n H; simpl; [exact H|].
    apply IH. simpl. now apply exists_register_mono. }
  revert s. induction later as [|c later IH]; intros s Hin; [contradiction|].
  destruct Hin as [->|Hin]; simpl.
  - apply Hmono. simpl. apply exists_register.
  - now apply IH.
Qed.

(** C8, as amended. The tools of the agent are built once, from the
    commands the registry holds when the agent is constructed: whatever
    is registered afterwards, [getTools] returns one tool per command of
    that time, in the order of the registry.  A command registered
    afterwards is in the registry, and [getTool] of its name returns the
    not-found value provided that no command of that name was registered
    when the agent was constructed. *)
Theorem agent_tools_are_fixed_at_construction
    commandRegistry (later : list (Command Env)) :
  CommandRecordRegistry.wf commandRegistry ->
  let s := register_all later (construct commandRegistry) in
  getTools (sys_agent s) = map tool_of (CommandRecordRegistry.getAll commandRegistry) /\
  forall command, In command later ->
    CommandRecordRegistry.exists_ (cmd_name command) (sys_registry s) = true /\
    ((forall before, In before (CommandRecordRegistry.getAll commandRegistry) ->
                     cmd_name before <> cmd_name command) ->
     getTool (cmd_name command) (sys_agent s) = None).
Proof.
  intros Hwf s. unfold s. rewrite agent_after_register_all. simpl.
  unfold getTools, getTool. rewrite (tools_of_new _ Hwf). split.
  - unfold JSMap.values. rewrite map_map. reflexivity.
  - intros command Hin. split; [now apply registry_after_register_all|].
    intros Hfresh. apply get_none_not_key.
    unfold JSMap.keys. rewrite map_map. simpl. rewrite in_map_iff.
    intros [before [Hname Hbefore]]. exact (Hfresh before Hbefore Hname).
Qed.
End AgentFacts.

Lemma agent_tools_are_fixed_at_construction_witness :
  ProgrammaticCLIAgent.getTools
    (ProgrammaticCLIAgent.sys_agent
       (ProgrammaticCLIAgent.register_all [Samples.EchoCommand "repeat"]
          (ProgrammaticCLIAgent.construct Samples.registry0)))
  = [ProgrammaticCLIAgent.tool_of (Samples.EchoCommand "echo")] /\
  ProgrammaticCLIAgent.getTool "repeat"
    (ProgrammaticCLIAgent.sys_agent
       (ProgrammaticCLIAgent.register_all [Samples.EchoCommand "repeat"]
          (ProgrammaticCLIAgent.construct Samples.registry0)))
  = None.
Proof.
  destruct (agent_tools_are_fixed_at_construction
              Samples.registry0 [Samples.EchoCommand "repeat"]
              (wf_register _ _ wf_empty_registry)) as [Htools Hlater].
  split; [exact Htools|].
  apply (Hlater (Samples.EchoCommand "repeat") (or_introl eq_refl)).
  intros before [<-|[]]. discriminate.
Defined.

(** C8 as stated fails for a command registered afterwards under a name
    that was already registered: [getTool] still finds the old tool. *)
Lemma getTool_finds_stale_tool_for_reregistered_name :
  CommandRecordRegistry.get "echo"
    (ProgrammaticCLIAgent.sys_registry
       (ProgrammaticCLIAgent.register Samples.ShoutCommand
          (ProgrammaticCLIAgent.construct Samples.registry0)))
  = Some Samples.ShoutCommand /\
  ProgrammaticCLIAgent.getTool (cmd_name Samples.ShoutCommand)
    (ProgrammaticCLIAgent.sys_agent
       (ProgrammaticCLIAgent.register Samples.ShoutCommand
          (ProgrammaticCLIAgent.construct Samples.registry0)))
  = Some (ProgrammaticCLIAgent.tool_of (Samples.EchoCommand "echo")).
Proof. split; reflexivity. Qed.

(** * Further properties *)

(** ** The registry: removal, order and reachable states *)

Section JSMapMore.
Context {V : Type}.
Implicit Types (m : JSMap.t V) (k : string) (v : V).

Lemma get_delete_other k k' m :
  k <> k' -> JSMap.get k' (JSMap.delete k m) = JSMap.get k' m.
Proof.
  intros Hne. unfold JSMap.delete.
  induction m as [|[k0 v0] m IH]; simpl; [reflexivity|].
  destruct (String.eqb k k0) eqn:E; simpl.
  - apply String.eqb_eq in E. subst k0.
    destruct (String.eqb k' k) eqn:E'; [|exact IH].
    apply String.eqb_eq in E'. congruence.
  - now rewrite IH.
Qed.

Lemma delete_absent k m : JSMap.get k m = None -> JSMap.delete k m = m.
Proof.
  unfold JSMap.delete. induction m as [|[k0 v0] m IH]; simpl; [reflexivity|].
  destruct (String.eqb k k0); [discriminate|]. simpl.
  intros H. now rewrite IH.
Qed.

Lemma delete_set_fresh k v m : JSMap.get k m = None -> JSMap.delete k (JSMap.set k v m) = m.
Proof.
  intros H. rewrite (set_fresh _ _ _ H). unfold JSMap.delete.
  rewrite filter_app. simpl. rewrite String.eqb_refl. simpl. rewrite app_nil_r.
  now apply delete_absent.
Qed.

(** Setting a key that is present changes the value where the key
    stands and nothing else. *)
Lemma set_present_in_place k v v0 m :
  JSMap.get k m = Some v0 ->
  exists before after,
    m = before ++ (k, v0) :: after /\
    JSMap.set k v m = before ++ (k, v) :: after /\
    JSMap.get k before = None.
Proof.
  induction m as [|[k0 v1] m IH]; simpl; [discriminate|].
  destruct (String.eqb k k0) eqn:E.
  - apply String.eqb_eq in E. subst k0. intros [= ->].
    exists [], m. repeat split.
  - intros H. destruct (IH H) as (before & after & Hm & Hs & Hb).
    exists ((k0, v1) :: before), after. simpl. rewrite E, Hs.
    repeat split; trivial. now rewrite <- Hm.
Qed.

Lemma keys_delete_NoDup k m : NoDup (JSMap.keys m) -> NoDup (JSMap.keys (JSMap.delete k m)).
Proof.
  unfold JSMap.delete, JSMap.keys.
  induction m as [|[k0 v0] m IH]; simpl; intros H; [constructor|].
  inversion H as [|? ? Hk Hm]; subst.
  destruct (negb (String.eqb k k0)); simpl; auto.
  constructor; auto. rewrite in_map_iff in *. intros [x [Hx Hin]].
  apply filter_In in Hin as [Hin _]. eauto.
Qed.

Lemma get_of_member k v m : NoDup (JSMap.keys m) -> In (k, v) m -> JSMap.get k m = Some v.
Proof.
  unfold JSMap.keys. induction m as [|[k0 v0] m IH]; simpl; intros Hnd Hin; [contradiction|].
  inversion Hnd as [|? ? Hk Hm]; subst.
  destruct Hin as [[= -> ->]|Hin].
  - now rewrite String.eqb_refl.
  - destruct (String.eqb k k0) eqn:E; [|now apply IH].
    apply String.eqb_eq in E. subst k0. exfalso. apply Hk.
    apply in_map_iff. now exists (k, v).
Qed.
End JSMapMore.

Section RegistryMore.
Context {Env : Type}.
Import CommandRecordRegistry.
Implicit Types (commands : CommandRecordRegistry.t Env) (command : Command Env).

Lemma exists_get (n : string) commands :
  exists_ n commands = true <-> get n commands <> None.
Proof.
  unfold exists_, get, JSMap.has.
  destruct (JSMap.get _ commands); split; congruence.
Qed.

(** X1. [unregister] removes the command under every spelling of the name
    that differs by case only, and leaves the lookups of all other names
    as they were; removing a name that is not registered changes
    nothing. *)
Theorem unregister_removes_case_folded (commandName : string) commands :
  (forall n, JSString.toLowerCase n = JSString.toLowerCase commandName ->
     get n (unregister commandName commands) = None /\
     exists_ n (unregister commandName commands) = false) /\
  (forall n, JSString.toLowerCase n <> JSString.toLowerCase commandName ->
     get n (unregister commandName commands) = get n commands) /\
  (exists_ commandName commands = false -> unregister commandName commands = commands).
Proof.
  unfold get, exists_, unregister, JSMap.has. repeat split.
  - rewrite H. apply get_delete_same.
  - rewrite H, get_delete_same. reflexivity.
  - intros n Hne. apply get_delete_other. congruence.
  - intros H. apply delete_absent.
    destruct (JSMap.get _ commands); [discriminate | reflexivity].
Qed.

(** X2. [register] touches one entry: every name that folds to another
    key resolves as before.  A new name goes to the end of [getAll]; a
    name already registered keeps its place in [getAll] and only the
    command there changes. *)
Theorem register_keeps_others_and_order command commands :
  (forall n, JSString.toLowerCase n <> JSString.toLowerCase (cmd_name command) ->
     get n (register command commands) = get n commands) /\
  (exists_ (cmd_name command) commands = false ->
     getAll (register command commands) = getAll commands ++ [command]) /\
  (forall old, get (cmd_name command) commands = Some old ->
     exists before after,
       getAll commands = before ++ old :: after /\
       getAll (register command commands) = before ++ command :: after).
Proof.
  unfold get, exists_, register, getAll, JSMap.has, JSMap.values. repeat split.
  - intros n Hne. apply get_set_other. congruence.
  - intros H. rewrite set_fresh, map_app; trivial.
    destruct (JSMap.get _ commands); [discriminate | reflexivity].
  - intros old H.
    destruct (set_present_in_place _ command _ _ H) as (before & after & Hm & Hs & _).
    exists (map snd before), (map snd after).
    rewrite Hs. rewrite Hm at 1. rewrite !map_app. split; reflexivity.
Qed.

Lemma wf_unregister (commandName : string) commands :
  wf commands -> wf (unregister commandName commands).
Proof.
  intros [Hnd Hall]. split.
  - now apply keys_delete_NoDup.
  - unfold unregister, JSMap.delete. rewrite Forall_forall in *.
    intros kv Hin. apply filter_In in Hin as [Hin _]. auto.
Qed.

Lemma wf_registry_after (ops : list (RegistryOp Env)) : wf (registry_after ops).
Proof.
  unfold registry_after.
  assert (H : forall commands, wf commands -> wf (fold_left registry_step ops commands)).
  { induction ops as [|op ops IH]; intros commands Hwf; simpl; [exact Hwf|].
    apply IH. destruct op; simpl; [now apply wf_register | now apply wf_unregister]. }
  apply H, wf_empty_registry.
Qed.

Lemma wf_get_own_name command commands :
  wf commands -> In command (getAll commands) ->
  get (cmd_name command) commands = Some command.
Proof.
  intros [Hnd Hall] Hin. unfold getAll, JSMap.values in Hin.
  apply in_map_iff in Hin as [[k c] [Hc Hin]]. simpl in Hc. subst c.
  rewrite Forall_forall in Hall. pose proof (Hall _ Hin) as Hk. simpl in Hk.
  unfold get. rewrite <- Hk. now apply get_of_member.
Qed.

(** X3. In every registry built from the empty one by [register] and
    [unregister], each command listed by [getAll] is the one [get] finds
    under its own name, and no two listed commands have names that are
    equal up to case. *)
Theorem reachable_registry_is_consistent (ops : list (RegistryOp Env)) :
  NoDup (map (fun command => JSString.toLowerCase (cmd_name command))
             (getAll (registry_after ops))) /\
  forall command, In command (getAll (registry_after ops)) ->
    get (cmd_name command) (registry_after ops) = Some command /\
    exists_ (cmd_name command) (registry_after ops) = true.
Proof.
  pose proof (wf_registry_after ops) as Hwf. split.
  - destruct Hwf as [Hnd Hall]. unfold getAll, JSMap.values. rewrite map_map.
    replace (map (fun kv => JSString.toLowerCase (cmd_name (snd kv))) (registry_after ops))
      with (JSMap.keys (registry_after ops)); [exact Hnd|].
    unfold JSMap.keys. apply map_ext_in. intros kv Hin.
    rewrite Forall_forall in Hall. now apply Hall.
  - intros command Hin. pose proof (wf_get_own_name _ _ Hwf Hin) as Hget.
    split; [exact Hget|]. apply exists_get. congruence.
Qed.

(** X4. Registering a command under a name that is free and then
    unregistering that name gives back the registry as it was. *)
Theorem register_then_unregister command commands :
  exists_ (cmd_name command) commands = false ->
  unregister (cmd_name command) (register command commands) = commands.
Proof.
  unfold exists_, unregister, register, JSMap.has. intros H.
  apply delete_set_fresh.
  destruct (JSMap.get _ commands); [discriminate | reflexivity].
Qed.
End RegistryMore.

Lemma unregister_removes_case_folded_witness :
  CommandRecordRegistry.get "echo"
    (CommandRecordRegistry.unregister "ECHO" MoreSamples.registry2) = None /\
  CommandRecordRegistry.get "repeat"
    (CommandRecordRegistry.unregister "ECHO" MoreSamples.registry2)
  = CommandRecordRegistry.get "repeat" MoreSamples.registry2 /\
  CommandRecordRegistry.unregister "missing" MoreSamples.registry2 = MoreSamples.registry2.
Proof.
  destruct (unregister_removes_case_folded "ECHO" MoreSamples.registry2) as (Hsame & Hother & _).
  destruct (unregister_removes_case_folded "missing" MoreSamples.registry2) as (_ & _ & Hnone).
  split; [apply (Hsame "echo"); reflexivity|].
  split; [apply (Hother "repeat"); discriminate|].
  apply Hnone. reflexivity.
Defined.

Lemma register_keeps_others_and_order_witness :
  CommandRecordRegistry.get "repeat"
    (CommandRecordRegistry.register Samples.ShoutCommand MoreSamples.registry2)
  = CommandRecordRegistry.get "repeat" MoreSamples.registry2 /\
  CommandRecordRegistry.getAll
    (CommandRecordRegistry.register (Samples.EchoCommand "third") MoreSamples.registry2)
  = CommandRecordRegistry.getAll MoreSamples.registry2 ++ [Samples.EchoCommand "third"] /\
  exists before after,
    CommandRecordRegistry.getAll MoreSamples.registry2
      = before ++ Samples.EchoCommand "echo" :: after /\
    CommandRecordRegistry.getAll
      (CommandRecordRegistry.register Samples.ShoutCommand MoreSamples.registry2)
      = before ++ Samples.ShoutCommand :: after.
Proof.
  split; [|split].
  - apply (proj1 (register_keeps_others_and_order Samples.ShoutCommand MoreSamples.registry2)).
    discriminate.
  - apply (proj1 (proj2 (register_keeps_others_and_order
                           (Samples.EchoCommand "third") MoreSamples.registry2))).
    reflexivity.
  - apply (proj2 (proj2 (register_keeps_others_and_order
                           Samples.ShoutCommand MoreSamples.registry2))).
    reflexivity.
Defined.

Lemma reachable_registry_is_consistent_witness :
  CommandRecordRegistry.get "echo" (registry_after MoreSamples.ops2) = Some Samples.ShoutCommand.
Proof.
  apply (proj2 (reachable_registry_is_consistent MoreSamples.ops2) Samples.ShoutCommand).
  simpl. auto.
Defined.

Lemma register_then_unregister_witness :
  CommandRecordRegistry.unregister "third"
    (CommandRecordRegistry.register (Samples.EchoCommand "third") MoreSamples.registry2)
  = MoreSamples.registry2.
Proof.
  apply (register_then_unregister (Samples.EchoCommand "third") MoreSamples.registry2).
  reflexivity.
Defined.

(** ** The input parser: positionals, reserved keys, flags *)

Section ParserMore.
Import CLIInputValidator TokenViews.

Lemma startsWith_two_dashes (arg : string) :
  JSString.startsWith "--" arg = true -> JSString.startsWith "-" arg = true.
Proof.
  destruct arg as [|a arg]; cbn [JSString.startsWith]; [discriminate|].
  destruct (Ascii.eqb "-" a); [reflexivity | discriminate].
Qed.

Lemma short_options_arguments (arg : string) (context : CLIContext) :
  arguments (short_options arg context) = arguments context.
Proof.
  unfold short_options. generalize (JSString.chars (JSString.substring_from 1 arg)).
  intros flags. revert context. induction flags as [|f flags IH]; intros context; simpl.
  - reflexivity.
  - rewrite IH. unfold short_flag.
    destruct (String.eqb f "j"), (String.eqb f "v"); reflexivity.
Qed.

Lemma long_option_arguments (arg : string) (context : CLIContext) :
  arguments (long_option arg context) = arguments context.
Proof.
  unfold long_option.
  destruct (_ || _); [reflexivity|]. destruct (String.eqb _ "verbose"); reflexivity.
Qed.

Lemma parse_arguments_from (args : list string) (context : CLIContext) :
  arguments (fold_left parse_token args context)
  = arguments context ++ filter is_positional args.
Proof.
  revert context. induction args as [|arg args IH]; intros context; simpl.
  - now rewrite app_nil_r.
  - rewrite IH. unfold parse_token, is_positional.
    destruct (JSString.startsWith "--" arg) eqn:E2.
    + rewrite (startsWith_two_dashes _ E2). simpl. now rewrite long_option_arguments.
    + destruct (JSString.startsWith "-" arg); simpl.
      * now rewrite short_options_arguments.
      * now rewrite <- app_assoc.
Qed.

(** X5. The positional arguments are the tokens that do not start with a
    dash, in the order given: a token that follows an option is a
    positional argument, never the value of that option. *)
Theorem parseArguments_positionals (args : list string) :
  arguments (parseArguments args) = filter is_positional args.
Proof. unfold parseArguments. now rewrite parse_arguments_from. Qed.

Lemma fold_pure_positionals (args : list string) (context : CLIContext) :
  Forall (fun arg => JSString.startsWith "-" arg = false) args ->
  fold_left parse_token args context
  = {| arguments := arguments context ++ args;
       options := options context;
       outputFormat := outputFormat context;
       verbose := verbose context |}.
Proof.
  intros Hall. revert context.
  induction Hall as [|arg args Harg Hall IH]; intros context; simpl.
  - rewrite app_nil_r. now destruct context.
  - rewrite IH. unfold parse_token.
    destruct (JSString.startsWith "--" arg) eqn:E2.
    + apply startsWith_two_dashes in E2. congruence.
    + rewrite Harg. simpl. now rewrite <- app_assoc.
Qed.

(** X6. Tokens without a leading dash are passed through: the arguments
    are the input, there is no option, the format is text and verbose is
    off. *)
Theorem parseArguments_pure_positionals (args : list string) :
  Forall (fun arg => JSString.startsWith "-" arg = false) args ->
  parseArguments args
  = {| arguments := args; options := JSMap.empty; outputFormat := text; verbose := false |}.
Proof.
  intros Hall. unfold parseArguments.
  rewrite (fold_pure_positionals args initial_context Hall). reflexivity.
Qed.
End ParserMore.

Lemma parseArguments_pure_positionals_witness :
  CLIInputValidator.parseArguments ["add"; "5"; "3"]%string
  = {| arguments := ["add"; "5"; "3"]%string; options := JSMap.empty;
       outputFormat := text; verbose := false |}.
Proof.
  apply parseArguments_pure_positionals. repeat constructor.
Defined.

Section ParserFlags.
Import CLIInputValidator TokenViews.

Lemma chars_single (s f : string) :
  In f (JSString.chars s) -> exists c, f = String c EmptyString /\ JSString.has_char c s = true.
Proof.
  induction s as [|x s IH]; simpl; [contradiction|].
  intros [<-|Hin].
  - exists x. now rewrite Ascii.eqb_refl.
  - destruct (IH Hin) as (c & -> & Hc). exists c. rewrite Hc. now rewrite orb_true_r.
Qed.

(** The three fields [parse_token] leaves to the flags, for each kind of
    token. *)
Lemma short_flags_fold (flags : list string) (context : CLIContext) :
  let context' := fold_left short_flag flags context in
  verbose context' = verbose context || existsb (fun f => String.eqb f "v") flags /\
  outputFormat context'
    = (if existsb (fun f => String.eqb f "j") flags then json else outputFormat context) /\
  (forall k, (forall f, In f flags -> f <> k) ->
             JSMap.get k (options context') = JSMap.get k (options context)) /\
  (forall f, In f flags -> JSMap.get f (options context') = Some (JSBool true)).
Proof.
  revert context. induction flags as [|f flags IH]; intros context; simpl.
  - rewrite orb_false_r. repeat split; trivial. contradiction.
  - destruct (IH (short_flag context f)) as (Hv & Hf & Hk & Hs). clear IH.
    assert (Hopt : options (short_flag context f)
                   = JSMap.set f (JSBool true) (options context)).
    { unfold short_flag. destruct (String.eqb f "j"), (String.eqb f "v"); reflexivity. }
    repeat split.
    + rewrite Hv. unfold short_flag.
      destruct (String.eqb f "j"), (String.eqb f "v"); simpl;
        rewrite ?orb_true_r, ?orb_false_r; reflexivity.
    + rewrite Hf. unfold short_flag.
      destruct (String.eqb f "j"), (String.eqb f "v"); simpl;
        destruct (existsb (fun g => String.eqb g "j") flags); reflexivity.
    + intros k Hne. rewrite Hk by auto. rewrite Hopt.
      apply get_set_other. auto.
    + intros g [<-|Hin]; [|now apply Hs].
      destruct (in_dec string_dec f flags) as [Hin|Hnot]; [now apply Hs|].
      rewrite Hk; [|intros g Hg ->; contradiction].
      rewrite Hopt. apply get_set_same.
Qed.

Lemma existsb_chars (c : ascii) (s : string) :
  existsb (fun f => String.eqb f (String c EmptyString)) (JSString.chars s)
  = JSString.has_char c s.
Proof.
  induction s as [|x s IH]; simpl; [reflexivity|].
  rewrite IH. now destruct (Ascii.eqb x c).
Qed.

Lemma parse_token_verbose (context : CLIContext) (arg : string) :
  verbose (parse_token context arg) = verbose context || sets_verbose arg.
Proof.
  unfold parse_token, sets_verbose.
  destruct (JSString.startsWith "--" arg).
  - unfold long_option, long_key_of.
    set (key := long_key _).
    destruct (String.eqb key "output") eqn:Eo.
    + apply String.eqb_eq in Eo. rewrite Eo. simpl. now rewrite orb_false_r.
    + destruct (String.eqb key "format") eqn:Ef.
      * apply String.eqb_eq in Ef. rewrite Ef. simpl. now rewrite orb_false_r.
      * simpl. destruct (String.eqb key "verbose"); simpl;
          rewrite ?orb_true_r, ?orb_false_r; reflexivity.
  - destruct (JSString.startsWith "-" arg).
    + unfold short_options.
      destruct (short_flags_fold (JSString.chars (JSString.substring_from 1 arg)) context)
        as (Hv & _). rewrite Hv. now rewrite (existsb_chars "v").
    + simpl. now rewrite orb_false_r.
Qed.

(** X7. [verbose] is on exactly when some token is the long option
    [--verbose], with or without a value, or a cluster of short flags
    that contains [v]; no token turns it off. *)
Theorem parseArguments_verbose (args : list string) :
  verbose (parseArguments args) = existsb sets_verbose args.
Proof.
  unfold parseArguments.
  assert (H : forall context,
             verbose (fold_left parse_token args context)
             = verbose context || existsb sets_verbose args).
  { induction args as [|arg args IH]; intros context; simpl.
    - now rewrite orb_false_r.
    - rewrite IH, parse_token_verbose. now rewrite orb_assoc. }
  now rewrite H.
Qed.

Lemma parse_token_format (context : CLIContext) (arg : string) :
  outputFormat (parse_token context arg)
  = match format_effect arg with Some f => f | None => outputFormat context end.
Proof.
  unfold parse_token, format_effect.
  destruct (JSString.startsWith "--" arg).
  - unfold long_option, long_key_of, long_value_of.
    destruct (_ || _); [reflexivity|].
    destruct (String.eqb _ "verbose"); reflexivity.
  - destruct (JSString.startsWith "-" arg); [|reflexivity].
    unfold short_options.
    destruct (short_flags_fold (JSString.chars (JSString.substring_from 1 arg)) context)
      as (_ & Hf & _). rewrite Hf. rewrite (existsb_chars "j").
    now destruct (JSString.has_char "j" _).
Qed.

(** What a token does to the format, on the text of the token.  For
    [--output] and [--format] the value that counts is what stands
    between the first [=] and the next one, or the end. *)
Lemma format_effect_long_value (key value : string) :
  key = "output"%string \/ key = "format"%string ->
  JSString.has_char "=" value = false ->
  format_effect ("--" ++ key ++ "=" ++ value)
  = Some (if String.eqb value "json" then json else text).
Proof.
  intros Hkey Hvalue. unfold format_effect, long_key_of, long_value_of.
  destruct Hkey as [-> | ->]; cbn [append JSString.startsWith JSString.substring_from];
    simpl; rewrite (split_without _ _ Hvalue); reflexivity.
Qed.

Lemma format_effect_long_value_cut (key value more : string) :
  key = "output"%string \/ key = "format"%string ->
  JSString.has_char "=" value = false ->
  format_effect ("--" ++ key ++ "=" ++ value ++ "=" ++ more)
  = Some (if String.eqb value "json" then json else text).
Proof.
  intros Hkey Hvalue. unfold format_effect, long_key_of, long_value_of.
  change (value ++ "=" ++ more)%string with (value ++ String "=" more)%string.
  destruct Hkey as [-> | ->]; cbn [append JSString.startsWith JSString.substring_from];
    simpl; rewrite (split_at_first _ _ _ Hvalue); reflexivity.
Qed.

Lemma format_effect_long_flag (key : string) :
  key = "output"%string \/ key = "format"%string ->
  format_effect ("--" ++ key) = Some text.
Proof. intros [-> | ->]; reflexivity. Qed.

Lemma format_effect_cluster (flags : string) :
  JSString.startsWith "-" flags = false ->
  format_effect ("-" ++ flags)
  = if JSString.has_char "j" flags then Some json else None.
Proof.
  intros Hflags. unfold format_effect.
  destruct flags as [|c flags]; [reflexivity|].
  cbn [JSString.startsWith] in Hflags. rewrite andb_true_r in Hflags.
  cbn [append JSString.startsWith JSString.substring_from].
  rewrite Ascii.eqb_refl, Hflags. reflexivity.
Qed.

(** X8. The output format is decided by the last token that names one;
    the tokens after it that name no format do not change it.  The
    token [--output=value] or [--format=value] gives json when [value],
    cut at its first [=] if it has one, is [json], and text otherwise:
    [--output=json=x] gives json.  Without [=] these two options give
    text.  A cluster of short flags containing [j] gives json. *)
Theorem parseArguments_last_format_wins (before after : list string) :
  Forall (fun a => format_effect a = None) after ->
  (forall (arg : string) (f : OutputFormat),
     format_effect arg = Some f ->
     outputFormat (parseArguments (before ++ arg :: after)) = f) /\
  (forall key value more : string,
     key = "output"%string \/ key = "format"%string ->
     JSString.has_char "=" value = false ->
     let chosen := if String.eqb value "json" then json else text in
     outputFormat (parseArguments (before ++ ("--" ++ key ++ "=" ++ value)%string :: after))
     = chosen /\
     outputFormat
       (parseArguments
          (before ++ ("--" ++ key ++ "=" ++ value ++ "=" ++ more)%string :: after))
     = chosen /\
     outputFormat (parseArguments (before ++ ("--" ++ key)%string :: after)) = text) /\
  (forall flags : string,
     JSString.startsWith "-" flags = false ->
     JSString.has_char "j" flags = true ->
     outputFormat (parseArguments (before ++ ("-" ++ flags)%string :: after)) = json).
Proof.
  intros Hafter.
  assert (Hlast : forall (arg : string) (f : OutputFormat),
            format_effect arg = Some f ->
            outputFormat (parseArguments (before ++ arg :: after)) = f).
  { intros arg f Harg. unfold parseArguments. rewrite fold_left_app. simpl.
    assert (H : forall context,
               outputFormat (fold_left parse_token after context) = outputFormat context).
    { induction Hafter as [|a after Ha Hafter IH]; intros context; simpl; [reflexivity|].
      rewrite IH, parse_token_format. now rewrite Ha. }
    rewrite H, parse_token_format. now rewrite Harg. }
  split; [exact Hlast|]. split.
  - intros key value more Hkey Hvalue chosen. repeat split; apply Hlast.
    + now apply format_effect_long_value.
    + now apply format_effect_long_value_cut.
    + now apply format_effect_long_flag.
  - intros flags Hflags Hj. apply Hlast.
    rewrite (format_effect_cluster _ Hflags). now rewrite Hj.
Qed.
End ParserFlags.

Lemma parseArguments_last_format_wins_witness :
  outputFormat
    (CLIInputValidator.parseArguments
       ["search"; "-j"; "--output=markdown"; "query"; "-v"]%string)
  = text /\
  outputFormat
    (CLIInputValidator.parseArguments
       ["search"; "-j"; "--output=json=x"; "query"; "-v"]%string)
  = json /\
  outputFormat
    (CLIInputValidator.parseArguments ["search"; "-j"; "-vj"; "query"; "-v"]%string)
  = json.
Proof.
  assert (Hafter : Forall (fun a => TokenViews.format_effect a = None)
                          ["query"; "-v"]%string) by (repeat constructor).
  split; [|split].
  - apply (proj1 (parseArguments_last_format_wins
                    ["search"; "-j"]%string ["query"; "-v"]%string Hafter)
                 "--output=markdown"%string text).
    reflexivity.
  - apply (proj1 (proj2 (proj1 (proj2 (parseArguments_last_format_wins
                                         ["search"; "-j"]%string ["query"; "-v"]%string
                                         Hafter))
                               "output"%string "json"%string "x"%string
                               (or_introl eq_refl) eq_refl))).
  - apply (proj2 (proj2 (parseArguments_last_format_wins
                           ["search"; "-j"]%string ["query"; "-v"]%string Hafter))
                 "vj"%string eq_refl eq_refl).
Defined.

Section ParserOptions.
Import CLIInputValidator TokenViews.

Lemma in_chars (c : ascii) (s : string) :
  JSString.has_char c s = true -> In (String c EmptyString) (JSString.chars s).
Proof.
  induction s as [|x s IH]; simpl; [discriminate|].
  destruct (Ascii.eqb x c) eqn:E; simpl.
  - apply Ascii.eqb_eq in E. subst. now left.
  - intros H. right. now apply IH.
Qed.

Lemma parse_token_reserved (context : CLIContext) (arg k : string) :
  k = "output"%string \/ k = "format"%string \/ k = "verbose"%string ->
  JSMap.get k (options (parse_token context arg)) = JSMap.get k (options context).
Proof.
  intros Hk. unfold parse_token.
  destruct (JSString.startsWith "--" arg).
  - unfold long_option. set (key := long_key _).
    destruct (String.eqb key "output") eqn:Eo; [reflexivity|].
    destruct (String.eqb key "format") eqn:Ef; [reflexivity|].
    destruct (String.eqb key "verbose") eqn:Ev; [reflexivity|]. simpl.
    apply get_set_other. apply String.eqb_neq in Eo, Ef, Ev.
    destruct Hk as [-> | [-> | ->]]; assumption.
  - destruct (JSString.startsWith "-" arg); [|reflexivity].
    unfold short_options.
    destruct (short_flags_fold (JSString.chars (JSString.substring_from 1 arg)) context)
      as (_ & _ & Hframe & _).
    apply Hframe. intros f Hin ->.
    apply chars_single in Hin as (c & Hc & _).
    destruct Hk as [Hk|[Hk|Hk]]; rewrite Hk in Hc; discriminate.
Qed.

(** X9. The long options [--output], [--format] and [--verbose] act on
    the format and on verbose only: whatever the tokens, the options map
    has no entry under any of these three keys. *)
Theorem parseArguments_reserved_keys_not_stored (args : list string) :
  JSMap.get "output" (options (parseArguments args)) = None /\
  JSMap.get "format" (options (parseArguments args)) = None /\
  JSMap.get "verbose" (options (parseArguments args)) = None.
Proof.
  unfold parseArguments.
  assert (H : forall k context,
             k = "output"%string \/ k = "format"%string \/ k = "verbose"%string ->
             JSMap.get k (options (fold_left parse_token args context))
             = JSMap.get k (options context)).
  { intros k context Hk. revert context.
    induction args as [|arg args IH]; intros context; simpl; [reflexivity|].
    rewrite IH. now apply parse_token_reserved. }
  repeat split; rewrite H; auto.
Qed.

(** X10. A token that starts with one dash is a cluster of short flags:
    right after it, every character of the cluster is an option with the
    value [true], whatever was stored under that character before. *)
Theorem parseArguments_short_cluster (before : list string) (arg : string) (c : ascii) :
  JSString.startsWith "--" arg = false ->
  JSString.startsWith "-" arg = true ->
  JSString.has_char c (JSString.substring_from 1 arg) = true ->
  JSMap.get (String c EmptyString) (options (parseArguments (before ++ [arg])))
  = Some (JSBool true).
Proof.
  intros H2 H1 Hc. unfold parseArguments. rewrite fold_left_app. simpl.
  unfold parse_token. rewrite H2, H1. unfold short_options.
  match goal with |- context [fold_left short_flag ?fl ?ctx] =>
    destruct (short_flags_fold fl ctx) as (_ & _ & _ & Hset) end.
  apply Hset. now apply in_chars.
Qed.
End ParserOptions.

Lemma parseArguments_short_cluster_witness :
  JSMap.get "r"
    (options (CLIInputValidator.parseArguments ["ls"; "--r=no"; "-lr"]%string))
  = Some (JSBool true).
Proof.
  apply (parseArguments_short_cluster ["ls"; "--r=no"]%string "-lr"%string "r"%char);
    reflexivity.
Defined.

(** ** Input validation *)

Section ValidationFacts.
Import InputValidation.

Lemma trimEnd_empty (s : string) : trimEnd s = EmptyString <-> blank s = true.
Proof.
  induction s as [|c s IH]; simpl; [tauto|].
  destruct (trimEnd s) as [|x r] eqn:E.
  - destruct (JSString.is_space c); simpl.
    + rewrite <- IH. tauto.
    + split; discriminate.
  - split; [discriminate|]. intros H. apply andb_true_iff in H as [_ H].
    apply IH in H. discriminate.
Qed.

Lemma blank_trimStart (s : string) : blank (trimStart s) = blank s.
Proof.
  induction s as [|c s IH]; simpl; [reflexivity|].
  destruct (JSString.is_space c) eqn:E; simpl; [exact IH | now rewrite E].
Qed.

Lemma trim_empty (s : string) : trim s = EmptyString <-> blank s = true.
Proof. unfold trim. now rewrite trimEnd_empty, blank_trimStart. Qed.

(** X11. [validate] accepts an input exactly when it has a character
    that is not white space; the empty string and a string of blanks are
    rejected with the one error ["Input cannot be empty"]. *)
Theorem validate_rejects_blank_input (input : string) :
  validate input
  = if blank input
    then {| valid := false; errors := ["Input cannot be empty"%string] |}
    else {| valid := true; errors := [] |}.
Proof.
  unfold validate. destruct (blank input) eqn:E.
  - apply trim_empty in E. rewrite E. simpl. now rewrite orb_true_r.
  - destruct input as [|c s]; [discriminate|]. simpl negb. simpl orb.
    destruct (trim (String c s)) as [|x r] eqn:Et; [|reflexivity].
    apply trim_empty in Et. congruence.
Qed.
End ValidationFacts.

(** ** The dispatcher: thrown errors, events, dispatch *)

Section EngineMore.
Context {Env : Type}.
Import StandardCLIEngine.
Implicit Types (commandRegistry : CommandRecordRegistry.t Env)
               (eventEmitter : CLIEventEmitter.t Env)
               (context : CLIContext) (w : World Env).

Ltac run :=
  unfold call_validate, call_execute, CLIErrorHandler.handle, logger, record,
    new_Date, Date_now, run_env, Eff.zoom, Eff.modify, Eff.try_catch, Eff.bind,
    Eff.throw, Eff.ret; simpl.

Ltac emitted :=
  match goal with |- context [CLIEventEmitter.emit ?l ?e ?d ?w0] =>
    let w' := fresh "w'" in
    let H := fresh "Hemit" in
    let Ht := fresh "Htrace" in
    let He := fresh "Henv" in
    destruct (emit_spec l e d w0) as (w' & H & Ht & He & _); rewrite H
  end.

(** How [executeCommand] ends.  Reading [error.message] in the handler
    fails when the command threw [undefined] or [null]: the [TypeError]
    leaves [executeCommand].  Everything else ends with a result. *)
Lemma executeCommand_outcome
    commandRegistry eventEmitter (commandName : string) context w :
  match CommandRecordRegistry.get commandName commandRegistry with
  | None =>
      exists result w',
        executeCommand commandRegistry eventEmitter commandName context w
        = (Normal result, w')
  | Some command =>
      match unreadable (thrown_by command context (w_env w)) with
      | Some p =>
          exists w',
            executeCommand commandRegistry eventEmitter commandName context w
            = (Throw (TypeError_reading p "message"), w') /\
            w_clock w' = w_clock w /\ w_ticks w' = S (w_ticks w)
      | None =>
          exists result w',
            executeCommand commandRegistry eventEmitter commandName context w
            = (Normal result, w')
      end
  end.
Proof.
  unfold executeCommand, thrown_by.
  destruct (CommandRecordRegistry.get commandName commandRegistry) as [command|]; run.
  - destruct (cmd_validate command context (w_env w)) as [[validation|e] env1]; simpl.
    + destruct (valid validation); simpl.
      * destruct (cmd_execute command context env1) as [[returned|e] env2]; simpl.
        -- emitted. eauto.
        -- destruct e as [e|[| |b|n|s]]; simpl; try (emitted; eauto); eauto.
      * eauto.
    + destruct e as [e|[| |b|n|s]]; simpl; try (emitted; eauto); eauto.
  - emitted. eauto.
Qed.

Lemma executeCommand_throws_errors_only
    commandRegistry eventEmitter (commandName : string) context w raised w' :
  executeCommand commandRegistry eventEmitter commandName context w = (Throw raised, w') ->
  (exists p, raised = ErrorObject (TypeError_reading p "message")) /\
  w_clock w' = w_clock w /\ w_ticks w' = S (w_ticks w).
Proof.
  intros H.
  pose proof (executeCommand_outcome commandRegistry eventEmitter commandName context w)
    as Hout.
  destruct (CommandRecordRegistry.get commandName commandRegistry) as [command|].
  - destruct (unreadable (thrown_by command context (w_env w))) as [p|].
    + destruct Hout as (w1 & H1 & Hc & Hk). rewrite H1 in H.
      injection H as <- <-. eauto.
    + destruct Hout as (r & w1 & H1). rewrite H1 in H. discriminate.
  - destruct Hout as (r & w1 & H1). rewrite H1 in H. discriminate.
Qed.

Lemma execute_ends_normally commandRegistry eventEmitter (args : list string) w :
  exists result w', execute commandRegistry eventEmitter args w = (Normal result, w').
Proof.
  unfold execute.
  destruct (arguments (CLIInputValidator.parseArguments args)) as [|commandName rest].
  - run. emitted. eauto.
  - unfold Eff.bind at 1. unfold Eff.try_catch at 1. unfold Date_now at 1. cbv beta iota.
    match goal with |- context [executeCommand ?r ?e ?n ?c ?w0] =>
      destruct (executeCommand r e n c w0) as [[result|raised] w1] eqn:H end.
    + eauto.
    + apply executeCommand_throws_errors_only in H. destruct H as ((p & ->) & _).
      run. emitted. eauto.
Qed.

(** X12. When the dispatcher throws.  [executeCommand] ends with a
    result when no command has the name, when the command returns, and
    when the command throws an [Error] or a number, a boolean or a
    string.  When [validate] or [execute] throws [undefined] or [null],
    reading [error.message] in the handler fails and [executeCommand]
    itself throws a [TypeError].  [execute] catches that [TypeError] as
    any other error: for commands that throw [Error]s or primitive
    values it always ends with a result. *)
Theorem dispatcher_throws_only_on_undefined_or_null commandRegistry eventEmitter w :
  (forall (commandName : string) context,
     match CommandRecordRegistry.get commandName commandRegistry with
     | None =>
         exists result w',
           executeCommand commandRegistry eventEmitter commandName context w
           = (Normal result, w')
     | Some command =>
         match thrown_by command context (w_env w) with
         | Some (ThrownValue PUndefined) | Some (ThrownValue PNull) =>
             exists raised w',
               executeCommand commandRegistry eventEmitter commandName context w
               = (Throw (ErrorObject raised), w') /\
               err_name raised = "TypeError"%string
         | _ =>
             exists result w',
               executeCommand commandRegistry eventEmitter commandName context w
               = (Normal result, w')
         end
     end) /\
  (forall args : list string,
     exists result w', execute commandRegistry eventEmitter args w = (Normal result, w')).
Proof.
  split; [|intros; apply execute_ends_normally].
  intros commandName context.
  pose proof (executeCommand_outcome commandRegistry eventEmitter commandName context w)
    as Hout.
  destruct (CommandRecordRegistry.get commandName commandRegistry) as [command|];
    [|exact Hout].
  destruct (thrown_by command context (w_env w)) as [[e|[| |b|n|s]]|]; simpl in Hout;
    try exact Hout.
  all: destruct Hout as (w' & H & _); do 2 eexists; split; [exact H|reflexivity].
Qed.



(** X15. [execute] takes the first positional argument as the name of
    the command and hands the rest to [executeCommand]: the command sees
    the remaining positional arguments, with the options, the format and
    verbose as parsed.  What [executeCommand] returns is what [execute]
    returns.  When [executeCommand] throws, [execute] catches the error:
    it returns a failure with the message of that error, timed from its
    own start, and emits [command:failed] with the error and no name. *)
Theorem execute_dispatches_on_first_positional
    commandRegistry eventEmitter (args : list string) w
    (commandName : string) (rest : list string) :
  arguments (CLIInputValidator.parseArguments args) = commandName :: rest ->
  let context :=
    {| arguments := rest;
       options := options (CLIInputValidator.parseArguments args);
       outputFormat := outputFormat (CLIInputValidator.parseArguments args);
       verbose := verbose (CLIInputValidator.parseArguments args) |} in
  match executeCommand commandRegistry eventEmitter commandName context (tick w) with
  | (Normal result, w1) =>
      execute commandRegistry eventEmitter args w = (Normal result, w1)
  | (Throw raised, w1) =>
      exists (e : JSError) result w',
        raised = ErrorObject e /\
        execute commandRegistry eventEmitter args w = (Normal result, w') /\
        success result = false /\
        error result = Some (err_message e) /\
        executionTimeMs result
        = (w_clock w (S (w_ticks w1)) - w_clock w (w_ticks w))%Z /\
        w_trace w' =
          w_trace w1
          ++ Emit "command:failed" (CommandFailed None raised)
             :: CLIEventEmitter.listener_calls
                  (CLIEventEmitter.callbacks "command:failed" eventEmitter)
  end.
Proof.
  intros Hargs context.
  assert (Hrun : execute commandRegistry eventEmitter args w
                 = Eff.try_catch
                     (executeCommand commandRegistry eventEmitter commandName context)
                     (fun error =>
                        result <- CLIErrorHandler.handle error None ;;
                        now <- Date_now ;;
                        let result :=
                          set_executionTimeMs (now - w_clock w (w_ticks w)) result in
                        logger ERROR "CLI execution failed" ;;
                        CLIEventEmitter.emit eventEmitter "command:failed"
                          (CommandFailed None error) ;;
                        Eff.ret result)%eff
                     (tick w)).
  { unfold execute. rewrite Hargs. reflexivity. }
  rewrite Hrun. clear Hrun. unfold Eff.try_catch at 1.
  destruct (executeCommand commandRegistry eventEmitter commandName context (tick w))
    as [[result|raised] w1] eqn:H.
  - reflexivity.
  - pose proof (executeCommand_throws_errors_only _ _ _ _ _ _ _ H)
      as ((p & ->) & Hclock & Hticks).
    unfold Eff.try_catch at 1. rewrite H.
    run. emitted. exists (TypeError_reading p "message"). do 2 eexists.
    repeat split.
    + simpl. rewrite Hclock. reflexivity.
    + rewrite Htrace. reflexivity.
Qed.
End EngineMore.

Section EchoEndToEnd.
Context {Env : Type}.
Variable env_Date : Env -> Z * Env.
Import StandardCLIEngine.

(** X16. With the built-in [echo] registered, [execute] of the tokens
    [echo] followed by words without a leading dash succeeds with the
    words joined by one space as [data.message]; with no word at all the
    result is the validation failure ["Message is required"]. *)
Theorem execute_echo_joins_words
    (commandRegistry : CommandRecordRegistry.t Env)
    (eventEmitter : CLIEventEmitter.t Env) (w : World Env) (words : list string) :
  CommandRecordRegistry.get "echo" commandRegistry
  = Some (BuiltinCommands.EchoCommand env_Date) ->
  Forall (fun word => JSString.startsWith "-" word = false) words ->
  exists result w',
    execute commandRegistry eventEmitter ("echo"%string :: words) w = (Normal result, w') /\
    match words with
    | [] =>
        success result = false /\
        error result = Some "Validation failed"%string /\
        message result = Some "Message is required"%string
    | _ :: _ =>
        success result = true /\
        data result = JSObject [("message"%string, JSString (JSString.join " " words))] /\
        message result = Some "Echo successful"%string /\
        error result = None
    end.
Proof.
  intros Hget Hwords.
  assert (Hparse : CLIInputValidator.parseArguments ("echo"%string :: words)
                   = {| arguments := "echo"%string :: words; options := JSMap.empty;
                        outputFormat := text; verbose := false |}).
  { unfold CLIInputValidator.parseArguments.
    rewrite fold_pure_positionals; [reflexivity|].
    constructor; [reflexivity | exact Hwords]. }
  unfold execute. rewrite Hparse. simpl arguments.
  unfold executeCommand. rewrite Hget.
  unfold call_validate, call_execute, CLIErrorHandler.handle, logger, record,
    new_Date, Date_now, run_env, Eff.zoom, Eff.modify, Eff.try_catch,
    Eff.bind, Eff.throw, Eff.ret; simpl.
  destruct words as [|word words]; simpl.
  - do 2 eexists. split; [reflexivity|]. simpl. repeat split.
  - destruct (env_Date (w_env w)) as [now env']. simpl.
    match goal with |- context [CLIEventEmitter.emit ?l ?e ?d ?w0] =>
      destruct (emit_spec l e d w0) as (w' & H & _) end.
    rewrite H. do 2 eexists. split; [reflexivity|]. simpl. repeat split.
Qed.
End EchoEndToEnd.



(** [throw undefined] in a command: [executeCommand] throws a
    [TypeError], and [execute] turns it into a failure. *)
Example executeCommand_rethrows_on_thrown_undefined :
  (exists w',
     StandardCLIEngine.executeCommand MoreSamples.registry5 Samples.emitter0 "careless"
       (Samples.context0 []) Samples.world0
     = (Throw (ErrorObject (TypeError_reading PUndefined "message")), w')) /\
  exists result w',
    StandardCLIEngine.execute MoreSamples.registry5 Samples.emitter0
      ["careless"%string] Samples.world0 = (Normal result, w') /\
    success result = false /\
    error result = Some (err_message (TypeError_reading PUndefined "message")).
Proof.
  split.
  - eexists. reflexivity.
  - cbv. do 2 eexists. split; [reflexivity|]. split; reflexivity.
Qed.

Lemma execute_dispatches_on_first_positional_witness :
  StandardCLIEngine.execute Samples.registry0 Samples.emitter0
    ["-v"; "echo"; "hello"; "--times=2"]%string Samples.world0
  = StandardCLIEngine.executeCommand Samples.registry0 Samples.emitter0 "echo"
      {| arguments := ["hello"%string];
         options := [("v"%string, JSBool true); ("times"%string, JSString "2")];
         outputFormat := text;
         verbose := true |}
      (tick Samples.world0) /\
  exists (e : JSError) result w',
    StandardCLIEngine.execute MoreSamples.registry5 Samples.emitter0
      ["careless"%string] Samples.world0 = (Normal result, w') /\
    success result = false /\
    error result = Some (err_message e) /\
    err_name e = "TypeError"%string.
Proof.
  split.
  - apply (execute_dispatches_on_first_positional Samples.registry0 Samples.emitter0
             ["-v"; "echo"; "hello"; "--times=2"]%string Samples.world0
             "echo" ["hello"%string]).
    reflexivity.
  - pose proof (execute_dispatches_on_first_positional
                  MoreSamples.registry5 Samples.emitter0
                  ["careless"%string] Samples.world0 "careless" [] eq_refl) as H.
    cbv zeta in H.
    change (StandardCLIEngine.executeCommand MoreSamples.registry5 Samples.emitter0
              "careless"
              {| arguments := [];
                 options := options (CLIInputValidator.parseArguments ["careless"%string]);
                 outputFormat :=
                   outputFormat (CLIInputValidator.parseArguments ["careless"%string]);
                 verbose := verbose (CLIInputValidator.parseArguments ["careless"%string]) |}
              (tick Samples.world0))
      with (@Throw CommandResult (ErrorObject (TypeError_reading PUndefined "message")),
            snd (StandardCLIEngine.executeCommand MoreSamples.registry5 Samples.emitter0
                   "careless" (Samples.context0 []) (tick Samples.world0))) in H.
    cbv beta iota in H.
    destruct H as (e & result & w' & He & Hrun & Hs & Herr & _).
    exists e, result, w'. repeat split; trivial.
    injection He as <-. reflexivity.
Defined.

Lemma execute_echo_joins_words_witness :
  exists result w',
    StandardCLIEngine.execute MoreSamples.registry4 Samples.emitter0
      ["echo"; "hello"; "world"]%string Samples.world0 = (Normal result, w') /\
    success result = true /\
    data result = JSObject [("message"%string, JSString "hello world")] /\
    message result = Some "Echo successful"%string /\
    error result = None.
Proof.
  apply (execute_echo_joins_words MoreSamples.count_Date MoreSamples.registry4
           Samples.emitter0 Samples.world0 ["hello"; "world"]%string).
  - reflexivity.
  - repeat constructor.
Defined.

(** ** The event emitter: removal, independence of events, reachable states *)

Section EmitterMore.
Context {Env : Type}.
Import CLIEventEmitter.
Implicit Types (listeners : CLIEventEmitter.t Env) (cb : Listener Env)
               (s : JSSet.t Env) (w : World Env).

Lemma delete_absent_callback cb s : JSSet.has cb s = false -> JSSet.delete cb s = s.
Proof.
  unfold JSSet.has, JSSet.delete. induction s as [|x s IH]; simpl; [reflexivity|].
  intros H. apply orb_false_iff in H as [Hx Hs]. rewrite Hx. simpl. now rewrite IH.
Qed.

Lemma delete_after_add cb s : JSSet.has cb s = false -> JSSet.delete cb (JSSet.add cb s) = s.
Proof.
  intros H. unfold JSSet.add. rewrite H. unfold JSSet.delete. rewrite filter_app. simpl.
  unfold JSSet.same at 2. rewrite Nat.eqb_refl. simpl. rewrite app_nil_r.
  now apply delete_absent_callback.
Qed.

(** X17. [off] of a callback that is not registered for the event, or
    for an event nobody listens to, leaves the emitter as it is.  [on] of
    a callback that is not yet registered puts it last in the delivery
    order, and [off] right after it restores the callbacks of every
    event. *)
Theorem off_undoes_on (event : string) cb listeners :
  JSSet.has cb (callbacks event listeners) = false ->
  off event cb listeners = listeners /\
  callbacks event (on event cb listeners) = callbacks event listeners ++ [cb] /\
  forall other, callbacks other (off event cb (on event cb listeners))
                = callbacks other listeners.
Proof.
  intros Hfresh. split; [|split].
  - unfold off, JSMap.has. unfold callbacks in Hfresh.
    destruct (JSMap.get event listeners) as [s|] eqn:E; simpl; [|reflexivity].
    rewrite (delete_absent_callback _ _ Hfresh). now apply set_get_same.
  - rewrite callbacks_on. unfold JSSet.add. now rewrite Hfresh.
  - intros other. destruct (string_dec event other) as [<-|Hne].
    + rewrite callbacks_off, callbacks_on. now apply delete_after_add.
    + now rewrite callbacks_off_other, callbacks_on_other.
Qed.




Lemma wf_emitter_after (ops : list (EmitterOp Env)) : wf (emitter_after ops).
Proof.
  unfold emitter_after.
  assert (H : forall listeners, wf listeners -> wf (fold_left emitter_step ops listeners)).
  { induction ops as [|op ops IH]; intros listeners Hwf; simpl; [exact Hwf|].
    apply IH. destruct op; simpl; [now apply wf_on | now apply wf_off]. }
  apply H, wf_empty.
Qed.

End EmitterMore.

(** ** The event emitter with callbacks that reach it: reachable states *)

Section LiveEmitterMore.
Context {Env : Type}.
Import LiveEmitter.
Implicit Types (listeners : LiveEmitter.t Env) (callback : Callback Env)
               (slots : Slots Env) (st : State Env).

Lemma holds_spec callback slots :
  existsb (holds callback) slots = true <->
  In (callback_ref callback) (map callback_ref (held slots)).
Proof.
  induction slots as [|[other|] slots IH]; simpl.
  - split; [discriminate | tauto].
  - rewrite orb_true_iff, IH, Nat.eqb_eq. intuition.
  - exact IH.
Qed.

Lemma held_app slots slots' : held (slots ++ slots') = held slots ++ held slots'.
Proof. unfold held. apply flat_map_app. Qed.

Lemma live_add_NoDup callback slots :
  NoDup (map callback_ref (held slots)) ->
  NoDup (map callback_ref (held (add callback slots))).
Proof.
  intros Hs. unfold add.
  destruct (existsb (holds callback) slots) eqn:E; [exact Hs|].
  rewrite held_app, map_app. simpl. apply NoDup_app; repeat split; trivial.
  - constructor; [tauto | constructor].
  - intros x Hx [<-|[]]. apply holds_spec in Hx. congruence.
Qed.

Lemma held_delete_incl callback slots (ref : nat) :
  In ref (map callback_ref (held (delete callback slots))) ->
  In ref (map callback_ref (held slots)).
Proof.
  induction slots as [|[other|] slots IH]; simpl; [tauto | | exact IH].
  destruct (Nat.eqb (callback_ref callback) (callback_ref other)); simpl; intuition.
Qed.

Lemma live_delete_NoDup callback slots :
  NoDup (map callback_ref (held slots)) ->
  NoDup (map callback_ref (held (delete callback slots))).
Proof.
  induction slots as [|[other|] slots IH]; simpl; intros H; [constructor | | auto].
  inversion H as [|? ? Hx Hs]; subst.
  destruct (Nat.eqb (callback_ref callback) (callback_ref other)); simpl; auto.
  constructor; auto. intros Hin. apply Hx. eapply held_delete_incl, Hin.
Qed.

Lemma live_callbacks_on_other (event other : string) callback listeners :
  event <> other ->
  callbacks other (on event callback listeners) = callbacks other listeners.
Proof.
  intros Hne. unfold callbacks, on, JSMap.has.
  destruct (JSMap.get event listeners) as [slots|] eqn:E; simpl.
  - rewrite ?E. now rewrite get_set_other.
  - rewrite get_set_same. now rewrite !get_set_other.
Qed.

Lemma live_callbacks_off_other (event other : string) callback listeners :
  event <> other ->
  callbacks other (off event callback listeners) = callbacks other listeners.
Proof.
  intros Hne. unfold callbacks, off, JSMap.has.
  destruct (JSMap.get event listeners) as [slots|] eqn:E; simpl; [|reflexivity].
  now rewrite get_set_other.
Qed.

Lemma live_wf_on (event : string) callback listeners :
  wf listeners -> wf (on event callback listeners).
Proof.
  intros H other. destruct (String.eqb event other) eqn:E.
  - apply String.eqb_eq in E. subst other.
    rewrite live_callbacks_on. apply live_add_NoDup, H.
  - apply String.eqb_neq in E. rewrite live_callbacks_on_other by exact E. apply H.
Qed.

Lemma live_wf_off (event : string) callback listeners :
  wf listeners -> wf (off event callback listeners).
Proof.
  intros H other. destruct (String.eqb event other) eqn:E.
  - apply String.eqb_eq in E. subst other.
    rewrite live_callbacks_off. apply live_delete_NoDup, H.
  - apply String.eqb_neq in E. rewrite live_callbacks_off_other by exact E. apply H.
Qed.

Lemma live_wf_after (ops : list (Op Env)) : wf (after ops).
Proof.
  unfold after.
  assert (H : forall listeners, wf listeners -> wf (fold_left step ops listeners)).
  { induction ops as [|op ops IH]; intros listeners Hwf; simpl; [exact Hwf|].
    apply IH. destruct op; simpl; [now apply live_wf_on | now apply live_wf_off]. }
  apply H. intros event. constructor.
Qed.

Lemma invocations_live_calls (ref : nat) (event : string) (data : EventData) slots :
  invocations ref (Emit event data :: listener_calls slots)
  = count_occ Nat.eq_dec (map callback_ref (held slots)) ref.
Proof.
  unfold invocations, listener_calls. simpl.
  induction (held slots) as [|x s IH]; simpl; [reflexivity|].
  destruct (Nat.eq_dec (callback_ref x) ref) as [->|Hne].
  - rewrite Nat.eqb_refl. simpl. now rewrite IH.
  - apply Nat.eqb_neq in Hne. now rewrite Hne.
Qed.

(** X19. However callbacks were registered and removed, when those of
    the event do not call the emitter while they run, one emission
    returns, leaves the listeners as they are, calls each function at
    most once, and calls a function exactly when it is registered for
    the event. *)
Theorem emit_calls_each_listener_at_most_once
    (ops : list (Op Env)) (event : string) (data : EventData) (w : World Env)
    (fuel : nat) :
  (forall callback, In (Some callback) (callbacks event (after ops)) ->
     forall env, quiet (callback_code callback data env) = true) ->
  length (callbacks event (after ops)) + 2 <= fuel ->
  exists st' calls,
    emit fuel event data {| st_world := w; st_listeners := after ops |}
    = Some (Normal tt, st') /\
    st_listeners st' = after ops /\
    w_trace (st_world st') = w_trace w ++ calls /\
    forall ref,
      invocations ref calls <= 1 /\
      (invocations ref calls = 1 <->
       In ref (map callback_ref (held (callbacks event (after ops))))).
Proof.
  intros Hquiet Hfuel.
  destruct (emit_quiet event data {| st_world := w; st_listeners := after ops |} fuel)
    as (st' & H & Hl & Ht); [exact Hquiet | exact Hfuel |].
  exists st', (Emit event data :: listener_calls (callbacks event (after ops))).
  split; [exact H|]. split; [exact Hl|]. split; [exact Ht|].
  intros ref. rewrite invocations_live_calls.
  pose proof (live_wf_after ops event) as Hnd.
  split.
  - now apply NoDup_count_occ.
  - split.
    + intros H1. apply (count_occ_In Nat.eq_dec). lia.
    + intros Hin. now apply NoDup_count_occ'.
Qed.

(** A callback that registers another one during the emission: the new
    one is at the end of the [Set] when [forEach] gets there, and is
    called in the same emission. *)
Lemma emit_reaches_callback_added_under_way
    st (event : string) (data : EventData) (first other : Callback Env)
    (env1 env2 : Env) :
  JSMap.get event (st_listeners st) = Some [Some first] ->
  callback_ref first <> callback_ref other ->
  callback_code first data (w_env (st_world st)) = CallOn event other (Return env1) ->
  callback_code other data env1 = Return env2 ->
  forall fuel : nat,
    5 <= fuel ->
    exists st',
      emit fuel event data st = Some (Normal tt, st') /\
      callbacks event (st_listeners st') = [Some first; Some other] /\
      w_trace (st_world st')
      = w_trace (st_world st)
        ++ [Emit event data; CallListener (callback_ref first);
            CallListener (callback_ref other)] /\
      w_env (st_world st') = env2.
Proof.
  intros Hget Hne Hfirst Hother fuel Hfuel.
  destruct fuel as [|[|[|[|[|fuel]]]]]; try lia.
  assert (Hcbs : callbacks event (on event other (st_listeners st))
                 = [Some first; Some other]).
  { rewrite live_callbacks_on. unfold callbacks. rewrite Hget. unfold add. simpl.
    apply not_eq_sym in Hne. apply Nat.eqb_neq in Hne. now rewrite Hne. }
  cbn [emit]. unfold JSMap.has. simpl. rewrite Hget. simpl.
  unfold callbacks at 1. simpl. rewrite Hget. simpl.
  rewrite Hfirst. simpl. rewrite Hcbs. simpl.
  rewrite Hother. simpl. rewrite Hcbs. simpl.
  eexists. split; [reflexivity|]. simpl. rewrite Hcbs.
  rewrite <- !app_assoc. simpl. repeat split.
Qed.
End LiveEmitterMore.

Lemma off_undoes_on_witness :
  CLIEventEmitter.off "startup" (Samples.counting_listener 2) Samples.emitter0
  = Samples.emitter0 /\
  CLIEventEmitter.callbacks "startup"
    (CLIEventEmitter.on "startup" (Samples.counting_listener 2) Samples.emitter0)
  = [Samples.throwing_listener 1; Samples.counting_listener 2].
Proof.
  destruct (off_undoes_on "startup" (Samples.counting_listener 2) Samples.emitter0 eq_refl)
    as (Hoff & Hon & _).
  split; [exact Hoff | exact Hon].
Defined.


Lemma emit_calls_each_listener_at_most_once_witness :
  exists st' calls,
    LiveEmitter.emit 4 "startup" (Payload JSNull)
      {| LiveEmitter.st_world := Samples.world0;
         LiveEmitter.st_listeners := LiveEmitter.after MoreSamples.live_ops |}
    = Some (Normal tt, st') /\
    w_trace (LiveEmitter.st_world st') = w_trace Samples.world0 ++ calls /\
    invocations 1 calls = 1 /\
    invocations 2 calls <= 1.
Proof.
  destruct (emit_calls_each_listener_at_most_once MoreSamples.live_ops "startup"
              (Payload JSNull) Samples.world0 4)
    as (st' & calls & Hrun & _ & Htrace & Hcalls).
  - intros callback [H|[H|[]]] env; [injection H as <-; reflexivity | discriminate H].
  - simpl. lia.
  - exists st', calls. split; [exact Hrun|]. split; [exact Htrace|]. split.
    + apply (proj2 (Hcalls 1)). simpl. auto.
    + apply (proj1 (Hcalls 2)).
Defined.

(** ** The plugin manager: unloading *)

Section PluginMore.
Context {Env : Type}.
Import PluginManager.
Implicit Types (plugin : Plugin Env) (s : State Env).

Ltac run :=
  unfold loadPlugin, unloadPlugin, call_initialize, call_shutdown, update_loaded, emit,
    in_world, logger, record, scope_of, set_scope, Eff.zoom, Eff.modify, Eff.try_catch,
    Eff.bind, Eff.throw, Eff.ret; simpl.

(** X20. Unloading a name that is not loaded is not an error: the call
    returns, a warning is logged, no plugin code runs, nothing is emitted
    and the manager is unchanged. *)
Theorem unloadPlugin_unknown_name_is_harmless (name : string) s :
  isPluginLoaded name (fst s) = false ->
  exists s',
    unloadPlugin name s = (Normal tt, s') /\
    fst s' = fst s /\
    w_trace (snd s') = w_trace (snd s) /\
    w_env (snd s') = w_env (snd s) /\
    w_log (snd s') = w_log (snd s) ++ [(WARN, ("Plugin not found: " ++ name)%string)].
Proof.
  destruct s as [pm w]. unfold isPluginLoaded, JSMap.has. simpl. intros H.
  unfold unloadPlugin. simpl.
  destruct (JSMap.get name (loadedPlugins pm)); [discriminate|].
  run. eexists. split; [reflexivity|]. simpl. repeat split.
Qed.

(** X21. Unloading a loaded plugin calls its [shutdown].  When that
    throws, the error is re-raised, the plugin stays loaded and nothing
    is emitted.  When it returns, the record is removed, the other
    plugins stay loaded, and [plugin:unloaded] is emitted. *)
Theorem unloadPlugin_removes_on_success_only (name : string) plugin s :
  JSMap.get name (loadedPlugins (fst s)) = Some plugin ->
  (forall (error : JSError) (scope' : PluginScope Env),
     plugin_shutdown plugin (scope_of s) = (Throw error, scope') ->
     exists s',
       unloadPlugin name s = (Throw error, s') /\
       loadedPlugins (fst s') = loadedPlugins (fst s) /\
       isPluginLoaded name (fst s') = true /\
       w_trace (snd s') = w_trace (snd s) ++ [CallShutdown]) /\
  (forall scope' : PluginScope Env,
     plugin_shutdown plugin (scope_of s) = (Normal tt, scope') ->
     exists s',
       unloadPlugin name s = (Normal tt, s') /\
       isPluginLoaded name (fst s') = false /\
       (forall other, other <> name ->
          JSMap.get other (loadedPlugins (fst s')) = JSMap.get other (loadedPlugins (fst s))) /\
       w_trace (snd s') =
         w_trace (snd s)
         ++ CallShutdown :: Emit "plugin:unloaded" (PluginEvent name)
            :: CLIEventEmitter.listener_calls
                 (CLIEventEmitter.callbacks "plugin:unloaded" (eventEmitter (fst s)))).
Proof.
  destruct s as [pm w]. simpl. intros Hget. split.
  - intros error scope' Hdown. unfold unloadPlugin. simpl. rewrite Hget. run.
    unfold scope_of in Hdown. simpl in Hdown. rewrite Hdown. simpl.
    eexists. split; [reflexivity|]. simpl. repeat split.
    unfold isPluginLoaded, JSMap.has. simpl. now rewrite Hget.
  - intros scope' Hdown. unfold unloadPlugin. simpl. rewrite Hget. run.
    unfold scope_of in Hdown. simpl in Hdown. rewrite Hdown. simpl.
    match goal with |- context [CLIEventEmitter.emit ?l ?e ?d ?w0] =>
      destruct (emit_spec l e d w0) as (w' & H & Ht & _) end.
    rewrite H. simpl. eexists. split; [reflexivity|]. simpl. repeat split.
    + unfold isPluginLoaded, JSMap.has. simpl. now rewrite get_delete_same.
    + intros other Hne. apply get_delete_other. congruence.
    + rewrite Ht. simpl. now rewrite <- app_assoc.
Qed.

Lemma loadPlugin_success_state (name : string) plugin s (scope1 : PluginScope Env) :
  plugin_initialize plugin (scope_of s) = (Normal tt, scope1) ->
  exists s1,
    loadPlugin name plugin s = (Normal tt, s1) /\
    loadedPlugins (fst s1) = JSMap.set name plugin (loadedPlugins (fst s)).
Proof.
  destruct s as [pm w]. intros Hinit. run.
  unfold scope_of in Hinit. simpl in Hinit. rewrite Hinit. simpl.
  match goal with |- context [CLIEventEmitter.emit ?l ?e ?d ?w0] =>
    destruct (emit_spec l e d w0) as (w1 & H1 & _) end.
  rewrite H1. simpl. eexists. split; reflexivity.
Qed.

Lemma unloadPlugin_success_state (name : string) plugin s (scope2 : PluginScope Env) :
  JSMap.get name (loadedPlugins (fst s)) = Some plugin ->
  plugin_shutdown plugin (scope_of s) = (Normal tt, scope2) ->
  exists s2,
    unloadPlugin name s = (Normal tt, s2) /\
    loadedPlugins (fst s2) = JSMap.delete name (loadedPlugins (fst s)).
Proof.
  destruct s as [pm w]. simpl. intros Hget Hdown.
  unfold unloadPlugin. simpl. rewrite Hget. run.
  unfold scope_of in Hdown. simpl in Hdown. rewrite Hdown. simpl.
  match goal with |- context [CLIEventEmitter.emit ?l ?e ?d ?w0] =>
    destruct (emit_spec l e d w0) as (w2 & H2 & _) end.
  rewrite H2. simpl. eexists. split; reflexivity.
Qed.

(** X22. Loading a plugin under a name that is free puts the name last in
    [getLoadedPlugins]; when its [shutdown] does not throw, unloading it
    again gives back the map of loaded plugins as it was before the
    load. *)
Theorem load_then_unload_restores_plugins (name : string) plugin s
    (scope1 : PluginScope Env) :
  isPluginLoaded name (fst s) = false ->
  plugin_initialize plugin (scope_of s) = (Normal tt, scope1) ->
  (forall scope, exists scope', plugin_shutdown plugin scope = (Normal tt, scope')) ->
  exists s1 s2,
    loadPlugin name plugin s = (Normal tt, s1) /\
    getLoadedPlugins (fst s1) = getLoadedPlugins (fst s) ++ [name] /\
    unloadPlugin name s1 = (Normal tt, s2) /\
    loadedPlugins (fst s2) = loadedPlugins (fst s).
Proof.
  unfold isPluginLoaded, JSMap.has. intros Hfree Hinit Hdown.
  assert (Hnone : JSMap.get name (loadedPlugins (fst s)) = None)
    by (destruct (JSMap.get name (loadedPlugins (fst s))); [discriminate | reflexivity]).
  destruct (loadPlugin_success_state name plugin s scope1 Hinit) as (s1 & Hload & Hmap1).
  destruct (Hdown (scope_of s1)) as (scope2 & Hshut).
  destruct (unloadPlugin_success_state name plugin s1 scope2) as (s2 & Hunload & Hmap2);
    [rewrite Hmap1; apply get_set_same | exact Hshut |].
  exists s1, s2. repeat split; trivial.
  - unfold getLoadedPlugins, JSMap.keys. rewrite Hmap1, (set_fresh _ _ _ Hnone).
    now rewrite map_app.
  - rewrite Hmap2, Hmap1. now apply delete_set_fresh.
Qed.
End PluginMore.

Lemma unloadPlugin_unknown_name_is_harmless_witness :
  exists s',
    PluginManager.unloadPlugin "images" (Samples.manager0, Samples.world0) = (Normal tt, s') /\
    fst s' = Samples.manager0 /\
    w_trace (snd s') = [] /\
    w_env (snd s') = 0 /\
    w_log (snd s') = [(WARN, "Plugin not found: images"%string)].
Proof.
  apply (unloadPlugin_unknown_name_is_harmless "images" (Samples.manager0, Samples.world0)).
  reflexivity.
Defined.

Lemma unloadPlugin_removes_on_success_only_witness :
  (exists s',
     PluginManager.unloadPlugin "images" MoreSamples.loaded1 = (Throw Samples.boom, s') /\
     PluginManager.isPluginLoaded "images" (fst s') = true) /\
  (exists s',
     PluginManager.unloadPlugin "images" Samples.loaded0 = (Normal tt, s') /\
     PluginManager.isPluginLoaded "images" (fst s') = false).
Proof.
  split.
  - destruct (proj1 (unloadPlugin_removes_on_success_only
                       "images" MoreSamples.stubborn_plugin MoreSamples.loaded1 eq_refl)
                    Samples.boom (PluginManager.scope_of MoreSamples.loaded1) eq_refl)
      as (s' & Hrun & _ & Hstill & _).
    exists s'. split; [exact Hrun | exact Hstill].
  - destruct (proj2 (unloadPlugin_removes_on_success_only
                       "images" Samples.echo_plugin Samples.loaded0 eq_refl)
                    (PluginManager.scope_of Samples.loaded0) eq_refl)
      as (s' & Hrun & Hgone & _).
    exists s'. split; [exact Hrun | exact Hgone].
Defined.

Lemma load_then_unload_restores_plugins_witness :
  exists s1 s2,
    PluginManager.loadPlugin "echo" Samples.echo_plugin Samples.loaded0 = (Normal tt, s1) /\
    PluginManager.getLoadedPlugins (fst s1) = ["images"; "echo"]%string /\
    PluginManager.unloadPlugin "echo" s1 = (Normal tt, s2) /\
    PluginManager.loadedPlugins (fst s2) = PluginManager.loadedPlugins (fst Samples.loaded0).
Proof.
  apply (load_then_unload_restores_plugins "echo" Samples.echo_plugin Samples.loaded0
           (CommandRecordRegistry.register (Samples.EchoCommand "echo") Samples.registry0, 0)).
  - reflexivity.
  - reflexivity.
  - intros scope. exists scope. reflexivity.
Defined.

(** ** The agent adapter: lookup, execution, parameters *)

Section AgentMore.
Context {Env : Type}.
Import ProgrammaticCLIAgent.
Implicit Types (commandRegistry live : CommandRecordRegistry.t Env)
               (eventEmitter : CLIEventEmitter.t Env)
               (command : Command Env) (agent : ProgrammaticCLIAgent.t Env)
               (w : World Env).

(** X23. The tools are found under the exact name of their command and
    under no other spelling: where the registry folds case, [getTool]
    does not.  Each command registered at construction has its tool. *)
Theorem getTool_is_exact_match commandRegistry :
  CommandRecordRegistry.wf commandRegistry ->
  (forall command, In command (CommandRecordRegistry.getAll commandRegistry) ->
     getTool (cmd_name command) (new commandRegistry) = Some (tool_of command)) /\
  (forall toolName : string,
     (forall command, In command (CommandRecordRegistry.getAll commandRegistry) ->
        cmd_name command <> toolName) ->
     getTool toolName (new commandRegistry) = None).
Proof.
  intros Hwf. unfold getTool. rewrite (tools_of_new _ Hwf). split.
  - intros command Hin. apply get_of_member.
    + unfold JSMap.keys. rewrite map_map. simpl. now apply wf_names_distinct.
    + apply in_map_iff. now exists command.
  - intros toolName Hnone. apply get_none_not_key.
    unfold JSMap.keys. rewrite map_map. simpl. rewrite in_map_iff.
    intros [command [Hname Hin]]. exact (Hnone command Hin Hname).
Qed.

(** X24. [execute] of the agent never throws.  For a name without tool it
    returns the failure ["Tool '...' not found"] and does not reach the
    engine: the world is untouched. *)
Theorem agent_execute_never_throws
    agent live eventEmitter (commandName : string) (args : JSMap.t JSValue) w :
  (exists result w',
     execute agent live eventEmitter commandName args w = (Normal result, w')) /\
  (getTool commandName agent = None ->
   execute agent live eventEmitter commandName args w
   = (Normal {| tool_success := false;
                tool_data := JSUndefined;
                tool_error := Some ("Tool '" ++ commandName ++ "' not found")%string;
                tool_message := None |}, w)).
Proof.
  unfold execute, getTool. split.
  - destruct (JSMap.get commandName (tools agent)) as [tool|].
    + unfold Eff.try_catch, Eff.ret.
      destruct (tool_execute tool live eventEmitter args w) as [[result|e] w']; eauto.
    + unfold Eff.ret. eauto.
  - intros H. now rewrite H.
Qed.

End AgentMore.

Section UsageParameters.
Import ProgrammaticCLIAgent.

Lemma strip_angles_clean (s : string) :
  JSString.has_char "<" (JSString.strip_angles s) = false /\
  JSString.has_char ">" (JSString.strip_angles s) = false.
Proof.
  induction s as [|c s [IH1 IH2]]; simpl; [auto|].
  destruct (Ascii.eqb c "<") eqn:E1; simpl; [auto|].
  destruct (Ascii.eqb c ">") eqn:E2; simpl; [auto|].
  now rewrite E1, E2, IH1, IH2.
Qed.

Lemma split_ws_tokens_come_from_input (c : ascii) (s tok : string) (in_ws : bool) :
  In tok (JSString.split_ws_from in_ws s) ->
  JSString.has_char c tok = true -> JSString.has_char c s = true.
Proof.
  revert tok in_ws. induction s as [|x s IH]; intros tok in_ws; simpl.
  - intros [<-|[]]. discriminate.
  - destruct (JSString.is_space x).
    + destruct in_ws.
      * intros Hin Hc. rewrite (IH _ _ Hin Hc). apply orb_true_r.
      * intros [<-|Hin] Hc; [discriminate|].
        rewrite (IH _ _ Hin Hc). apply orb_true_r.
    + destruct (JSString.split_ws_from false s) as [|seg rest] eqn:E.
      * intros [<-|[]] Hc. simpl in Hc. rewrite orb_false_r in Hc. now rewrite Hc.
      * intros [<-|Hin] Hc.
        -- simpl in Hc. apply orb_true_iff in Hc as [Hc|Hc]; [now rewrite Hc|].
           rewrite (IH seg false); [apply orb_true_r | rewrite E; now left | exact Hc].
        -- rewrite (IH tok false); [apply orb_true_r | rewrite E; now right | exact Hc].
Qed.

Lemma startsWith_has_char (c : ascii) (s : string) :
  JSString.startsWith (String c EmptyString) s = true -> JSString.has_char c s = true.
Proof.
  destruct s as [|x s]; cbn [JSString.startsWith JSString.has_char]; [discriminate|].
  rewrite Ascii.eqb_sym. destruct (Ascii.eqb x c); [reflexivity | discriminate].
Qed.

(** X26. Every parameter derived from a usage string is required, of
    type string, described as ["Parameter: <name>"], and its name has no
    angle bracket left.  There are fewer parameters than tokens, the
    first token never being one, and a usage without [<] declares no
    parameter at all. *)
Theorem parseUsageToParameters_shape (usage : string) :
  Forall (fun p =>
            param_required p = true /\
            param_type p = type_string /\
            param_description p = ("Parameter: " ++ param_name p)%string /\
            JSString.has_char "<" (param_name p) = false /\
            JSString.has_char ">" (param_name p) = false)
         (parseUsageToParameters usage) /\
  length (parseUsageToParameters usage) < length (JSString.split_ws usage) /\
  (JSString.has_char "<" usage = false -> parseUsageToParameters usage = []).
Proof.
  unfold parseUsageToParameters. split; [|split].
  - apply Forall_forall. intros p Hin. apply in_map_iff in Hin as [part [<- _]]. simpl.
    destruct (strip_angles_clean part). auto.
  - rewrite length_map.
    eapply Nat.le_lt_trans; [apply filter_length_le|].
    unfold JSString.split_ws.
    destruct (JSString.split_ws_from false usage) as [|tok rest] eqn:E; simpl; [|lia].
    destruct usage as [|x s]; simpl in E; [discriminate|].
    destruct (JSString.is_space x); [discriminate|].
    destruct (JSString.split_ws_from false s); discriminate.
  - intros Hno.
    match goal with |- map _ ?l = [] => destruct l as [|part parts] eqn:E end;
      [reflexivity|].
    exfalso.
    assert (Hin : In part (filter (fun part : string =>
                     JSString.startsWith "<" part && JSString.endsWith ">" part)
                   (tl (JSString.split_ws usage)))) by (rewrite E; now left).
    apply filter_In in Hin as [Hin Hpart]. apply andb_true_iff in Hpart as [Hstart _].
    apply startsWith_has_char in Hstart.
    assert (Hin' : In part (JSString.split_ws usage)).
    { destruct (JSString.split_ws usage); [exact Hin | now right]. }
    rewrite (split_ws_tokens_come_from_input "<" usage part false Hin' Hstart) in Hno.
    discriminate.
Qed.
End UsageParameters.

Lemma getTool_is_exact_match_witness :
  ProgrammaticCLIAgent.getTool "echo" (ProgrammaticCLIAgent.new MoreSamples.registry2)
  = Some (ProgrammaticCLIAgent.tool_of (Samples.EchoCommand "echo")) /\
  ProgrammaticCLIAgent.getTool "Echo" (ProgrammaticCLIAgent.new MoreSamples.registry2)
  = None /\
  CommandRecordRegistry.exists_ "Echo" MoreSamples.registry2 = true.
Proof.
  destruct (getTool_is_exact_match MoreSamples.registry2
              (wf_register _ _ (wf_register _ _ wf_empty_registry))) as [Hfound Hnone].
  split; [|split].
  - apply (Hfound (Samples.EchoCommand "echo")). simpl. auto.
  - apply (Hnone "Echo"%string). intros command [<-|[<-|[]]]; discriminate.
  - reflexivity.
Defined.

Lemma agent_execute_never_throws_witness :
  ProgrammaticCLIAgent.execute (ProgrammaticCLIAgent.new MoreSamples.registry2)
    MoreSamples.registry2 Samples.emitter0 "ECHO" [("message"%string, JSString "hi")]
    Samples.world0
  = (Normal {| tool_success := false;
               tool_data := JSUndefined;
               tool_error := Some "Tool 'ECHO' not found"%string;
               tool_message := None |}, Samples.world0).
Proof.
  apply (agent_execute_never_throws (ProgrammaticCLIAgent.new MoreSamples.registry2)
           MoreSamples.registry2 Samples.emitter0 "ECHO"
           [("message"%string, JSString "hi")] Samples.world0).
  reflexivity.
Defined.


Lemma parseUsageToParameters_shape_witness :
  ProgrammaticCLIAgent.parseUsageToParameters "help [command-name]" = [].
Proof.
  apply (parseUsageToParameters_shape "help [command-name]"). reflexivity.
Defined.

(** ** The service container *)

Section ContainerFacts.
Context {Env : Type}.
Import DIContainer.
Implicit Types (c : DIContainer.t Env) (service : Service Env) (env : Env).

(** X27. [get] of a key that was never registered, or of any key after
    [clear], throws ["Service '<key>' not found in container"] and leaves
    the container and the environment as they were. *)
Theorem container_get_missing_key_throws (key : string) c env :
  (has key c = false -> get key (c, env) = (Throw (not_found key), (c, env))) /\
  has key (clear c) = false /\
  get key (clear c, env) = (Throw (not_found key), (clear c, env)).
Proof.
  unfold get, has. simpl. split; [|split; reflexivity].
  intros H. now rewrite H.
Qed.

(** X28. What [registerSingleton] stores is what [get] returns, every
    time and without calling anything: also when the stored value is a
    function, and also when a factory was registered under the key
    before. *)
Theorem container_singleton_is_returned_as_is (key : string) service c env :
  get key (registerSingleton key service c, env)
  = (Normal service, (registerSingleton key service c, env)) /\
  has key (registerSingleton key service c) = true.
Proof.
  unfold get, has, registerSingleton, JSMap.has. simpl.
  rewrite !get_set_same. simpl. split; [|reflexivity].
  destruct service; reflexivity.
Qed.

(** X29. A factory is called by the first [get] of its key, which
    returns what the factory built and remembers it.  From then on the
    factory is not called again, and [get] returns the factory function
    itself rather than what it built.  A factory that throws lets the
    error through and nothing is remembered.  A function stored with
    plain [register] is a factory like any other. *)
Theorem container_factory_is_called_once
    (key : string) (factory : Env -> Completion (Service Env) * Env) c env :
  JSMap.has key (singletons c) = false ->
  (forall instance env',
     factory env = (Normal instance, env') ->
     exists c1,
       get key (registerFactory key factory c, env) = (Normal instance, (c1, env')) /\
       JSMap.get key (singletons c1) = Some instance /\
       forall env2, get key (c1, env2) = (Normal (Function factory), (c1, env2))) /\
  (forall error env',
     factory env = (Throw error, env') ->
     get key (registerFactory key factory c, env)
     = (Throw error, (registerFactory key factory c, env'))) /\
  register key (Function factory) c = registerFactory key factory c.
Proof.
  intros Hfresh. unfold get, registerFactory, JSMap.has in *. simpl.
  split; [|split; [|reflexivity]].
  - intros instance env' Hcall. rewrite !get_set_same.
    destruct (JSMap.get key (singletons c)) eqn:E; [discriminate|]. simpl.
    rewrite Hcall. eexists. split; [reflexivity|]. simpl.
    rewrite !get_set_same. split; [reflexivity|]. intros env2. reflexivity.
  - intros error env' Hcall. rewrite !get_set_same.
    destruct (JSMap.get key (singletons c)) eqn:E; [discriminate|]. simpl.
    now rewrite Hcall.
Qed.
End ContainerFacts.

Lemma container_get_missing_key_throws_witness :
  DIContainer.get "logger" (DIContainer.empty, 0)
  = (Throw {| err_name := "Error";
              err_message := "Service 'logger' not found in container" |},
     (DIContainer.empty, 0)).
Proof.
  apply (proj1 (container_get_missing_key_throws "logger" DIContainer.empty 0)).
  reflexivity.
Defined.

Lemma container_factory_is_called_once_witness :
  exists c1,
    DIContainer.get "logger"
      (DIContainer.registerFactory "logger" MoreSamples.logger_factory DIContainer.empty, 0)
    = (Normal (Instance (JSObject [("level"%string, JSString "info")])), (c1, 1)) /\
    DIContainer.get "logger" (c1, 1)
    = (Normal (Function MoreSamples.logger_factory), (c1, 1)).
Proof.
  destruct (proj1 (container_factory_is_called_once "logger" MoreSamples.logger_factory
                     DIContainer.empty 0 eq_refl)
                  (Instance (JSObject [("level"%string, JSString "info")])) 1 eq_refl)
    as (c1 & Hfirst & _ & Hnext).
  exists c1. split; [exact Hfirst | apply Hnext].
Defined.

(** ** The output formatter: telling success from failure *)

Section FormatterMore.
Import CLIOutputFormatter.
Variable JSON_stringify : JSValue -> string.
Variable toISOString : Z -> string.

(** X30. In text mode the first characters of the output tell success
    from failure: the output starts with ["✅ Success"] exactly when the
    result is a success and with ["❌ Error"] exactly when it is not,
    whatever the message, the error and the data are. *)
Theorem format_text_prefix_tells_success (result : CommandResult) :
  JSString.startsWith "✅ Success" (format JSON_stringify toISOString result text)
  = success result /\
  JSString.startsWith "❌ Error" (format JSON_stringify toISOString result text)
  = negb (success result).
Proof.
  unfold format. destruct (success result).
  - unfold format_success.
    destruct (truthy_opt (message result)), (truthy (data result));
      try destruct (data result); split; reflexivity.
  - rewrite format_failure_shape. split; reflexivity.
Qed.
End FormatterMore.
